(** * Shallow embedding of [thunder/rdds/images.py] (class [Images])

    Python objects are modelled as follows.
    - ndarrays are values [{shape; dtype; data}] with the data flattened in
      row-major (C) order; they live in a heap, and an RDD record holds a
      reference to its array, so that two collections may share one array
      object (as [mapValues] does when its function returns its argument).
    - an [Images] object is a record of its RDD (a list of key/reference
      pairs) and its cached metadata fields [_dims], [_nimages], [_dtype];
      a property getter returns its value together with the object after
      the cache update it performs.
    - statements that may raise run in a state and error monad [M] over the
      heap and the standard output. *)

From Stdlib Require Import String Ascii.
From Stdlib Require Import List ZArith Lia Bool.
From Stdlib Require Import Sorting.Sorted Sorting.Permutation.
Import ListNotations.

(** ** Python values, errors and the effect monad *)

Inductive PyErr : Type :=
  | TypeError | ValueError | IndexError | NameError | AxisError | Exception_.

(** Image record keys are tuples of ints ([_check_type]). *)
Definition Key := list Z.
Definition Ref := nat.
Definition Dimensions := list nat.

Record ndarray := mk_ndarray {
  shape : list nat;
  dtype_of : string;
  data : list Z
}.

(** Text written by the [print] statement of [toBlocks]. *)
Inductive Output : Type :=
  | BlockSizeWarning (avgSize maxSize : Z).

Record St := mk_St {
  heap : list ndarray;
  stdout : list Output
}.

Definition M (A : Type) : Type := St -> PyErr + (A * St).

Definition ret {A} (a : A) : M A := fun s => inr (a, s).
Definition bind {A B} (m : M A) (k : A -> M B) : M B :=
  fun s => match m s with inl e => inl e | inr (a, s') => k a s' end.
Definition raise {A} (e : PyErr) : M A := fun _ => inl e.
Definition lift {A} (r : PyErr + A) : M A :=
  fun s => match r with inl e => inl e | inr a => inr (a, s) end.

Notation "x <- m ;; k" := (bind m (fun x => k))
  (at level 61, m at next level, right associativity).
Notation "' p <- m ;; k" := (bind m (fun x => match x with p => k end))
  (at level 61, p pattern, m at next level, right associativity).
Notation "m ;;; k" := (bind m (fun _ => k))
  (at level 61, right associativity).

Fixpoint list_set {A} (n : nat) (x : A) (l : list A) : list A :=
  match l, n with
  | [], _ => []
  | _ :: l', O => x :: l'
  | y :: l', S n' => y :: list_set n' x l'
  end.

Definition deref (r : Ref) : M ndarray := fun s =>
  match nth_error (heap s) r with Some a => inr (a, s) | None => inl Exception_ end.
Definition alloc (a : ndarray) : M Ref := fun s =>
  inr (length (heap s), mk_St (heap s ++ [a]) (stdout s)).
Definition store (r : Ref) (a : ndarray) : M unit := fun s =>
  inr (tt, mk_St (list_set r a (heap s)) (stdout s)).
Definition print (o : Output) : M unit := fun s =>
  inr (tt, mk_St (heap s) (stdout s ++ [o])).

Fixpoint mapM {A B} (f : A -> M B) (l : list A) : M (list B) :=
  match l with
  | [] => ret []
  | x :: l' => y <- f x ;; ys <- mapM f l' ;; ret (y :: ys)
  end.

(** ** numpy arrays *)

(** All multi-indices of a shape, in row-major order. *)
Fixpoint indices (sh : list nat) : list (list nat) :=
  match sh with
  | [] => [[]]
  | n :: sh' => flat_map (fun i => map (cons i) (indices sh')) (seq 0 n)
  end.

Fixpoint flat_index (sh idx : list nat) : nat :=
  match sh, idx with
  | n :: sh', i :: idx' => i * fold_right Nat.mul 1 sh' + flat_index sh' idx'
  | _, _ => 0
  end.

Definition get (a : ndarray) (idx : list nat) : Z :=
  nth (flat_index (shape a) idx) (data a) 0%Z.

(** Python's reading of an axis number for a sequence of length [r]. *)
Definition normalize_axis (ax : Z) (r : nat) : option nat :=
  if (0 <=? ax)%Z && (ax <? Z.of_nat r)%Z then Some (Z.to_nat ax)
  else if (- Z.of_nat r <=? ax)%Z && (ax <? 0)%Z then Some (Z.to_nat (ax + Z.of_nat r))
  else None.

(** [del l[ax]] on a Python list. *)
Definition py_del {A} (l : list A) (ax : Z) : option (list A) :=
  match normalize_axis ax (length l) with
  | Some i => Some (firstn i l ++ skipn (S i) l)
  | None => None
  end.

Definition insert_at (i k : nat) (idx : list nat) : list nat :=
  firstn i idx ++ k :: skipn i idx.

(** [numpy.amax(a, axis)] and [numpy.amin(a, axis)]: reduction along an axis. *)
Definition reduce_axis (op : Z -> Z -> Z) (a : ndarray) (ax : Z) : PyErr + ndarray :=
  match normalize_axis ax (length (shape a)) with
  | None => inl AxisError
  | Some i =>
      match nth i (shape a) 0%nat with
      | O => inl ValueError
      | S n =>
          let sh' := firstn i (shape a) ++ skipn (S i) (shape a) in
          inr (mk_ndarray sh' (dtype_of a)
                 (map (fun idx =>
                         fold_left (fun acc k => op acc (get a (insert_at i k idx)))
                           (seq 1 n) (get a (insert_at i 0 idx)))
                      (indices sh')))
      end
  end.

Definition amax := reduce_axis Z.max.
Definition amin := reduce_axis Z.min.

Definition np_add (a b : ndarray) : PyErr + ndarray :=
  if list_eq_dec Nat.eq_dec (shape a) (shape b)
  then inr (mk_ndarray (shape a) (dtype_of a)
              (map (fun '(x, y) => (x + y)%Z) (combine (data a) (data b))))
  else inl ValueError.

(** Length of [range(0, stop, step)] cut at an axis of size [n] ([step > 0]). *)
Definition slice_len (stop n step : nat) : nat :=
  (Nat.min stop n + step - 1) / step.

Fixpoint sliced_shape (sh : list nat) (sls : list (nat * nat)) : list nat :=
  match sh, sls with
  | n :: sh', (stop, step) :: sls' => slice_len stop n step :: sliced_shape sh' sls'
  | _, [] => sh
  | [], _ :: _ => []
  end.

Fixpoint source_index (sls : list (nat * nat)) (idx : list nat) : list nat :=
  match sls, idx with
  | (_, step) :: sls', i :: idx' => i * step :: source_index sls' idx'
  | [], _ => idx
  | _, [] => []
  end.

(** [a[sampleslices]] for a list of [slice(0, stop, step)] ([(stop, step)]). *)
Definition getslices (a : ndarray) (sls : list (nat * nat)) : PyErr + ndarray :=
  if Nat.ltb (length (shape a)) (length sls) then inl IndexError
  else let sh' := sliced_shape (shape a) sls in
       inr (mk_ndarray sh' (dtype_of a)
              (map (fun idx => get a (source_index sls idx)) (indices sh'))).

(** ** The [Images] object *)

Record Images := mkImages {
  rdd : list (Key * Ref);
  _dims : option Dimensions;
  _nimages : option nat;
  _dtype : option string
}.

(** [Images(rdd, dims=None, nimages=None, dtype=None)]; [Dimensions.fromTuple]
    keeps the tuple of axis sizes. *)
Definition Images_init (r : list (Key * Ref)) (dims : option Dimensions)
    (nimages : option nat) (dtype : option string) : Images :=
  mkImages r dims nimages dtype.

Definition set_dims (self : Images) (d : option Dimensions) : Images :=
  mkImages (rdd self) d (_nimages self) (_dtype self).
Definition set_nimages (self : Images) (n : option nat) : Images :=
  mkImages (rdd self) (_dims self) n (_dtype self).
Definition set_dtype (self : Images) (t : option string) : Images :=
  mkImages (rdd self) (_dims self) (_nimages self) t.

(** Modelled from the spec: [Data.__finalize__] (thunder/rdds/data.py, not
    among the sources), which copies every metadata field ([_dtype],
    [_dims], [_nimages]) of [other] into the new object where the new object
    left it unset, so cached shape and dtype survive every operation that
    does not set its own. *)
Definition __finalize__ (self other : Images) : Images :=
  let pick {A} (mine theirs : option A) :=
    match mine with Some _ => mine | None => theirs end in
  mkImages (rdd self) (pick (_dims self) (_dims other))
    (pick (_nimages self) (_nimages other)) (pick (_dtype self) (_dtype other)).

(** [self.rdd.first()]. *)
Definition rdd_first (self : Images) : M (Key * Ref) :=
  match rdd self with
  | [] => raise ValueError
  | r :: _ => ret r
  end.

(** [Images.populateParamsFromFirstRecord]; the [super] call is
    [Data.populateParamsFromFirstRecord] (thunder/rdds/data.py, not among
    the sources), modelled from the spec: it takes the first record and
    caches [str(record[1].dtype)] in [_dtype]. The array read is returned
    along with the record. *)
Definition populateParamsFromFirstRecord (self : Images)
    : M ((Key * Ref) * ndarray * Images) :=
  record <- rdd_first self ;;
  a <- deref (snd record) ;;
  let self1 := set_dtype self (Some (dtype_of a)) in
  let self2 := set_dims self1 (Some (shape a)) in
  ret (record, a, self2).

(** Property [dims]. *)
Definition get_dims (self : Images) : M (Dimensions * Images) :=
  match _dims self with
  | Some d => ret (d, self)
  | None => '(_, a, self') <- populateParamsFromFirstRecord self ;; ret (shape a, self')
  end.

(** Property [nimages]: [self.rdd.count()] on a cache miss. *)
Definition get_nimages (self : Images) : nat * Images :=
  match _nimages self with
  | Some n => (n, self)
  | None => let n := length (rdd self) in (n, set_nimages self (Some n))
  end.

(** Property [dtype], i.e. [Data.dtype] (modelled from the spec: lazily
    derived from the first record and cached). *)
Definition get_dtype (self : Images) : M (string * Images) :=
  match _dtype self with
  | Some t => ret (t, self)
  | None => '(_, a, self') <- populateParamsFromFirstRecord self ;; ret (dtype_of a, self')
  end.

Definition _resetCounts (self : Images) : Images := set_nimages self None.

(** [self.rdd.mapValues(f)]: every record gets a new array object holding
    [f]'s result. *)
Definition mapValues (f : ndarray -> PyErr + ndarray) (r : list (Key * Ref))
    : M (list (Key * Ref)) :=
  mapM (fun '(k, ref) => a <- deref ref ;; b <- lift (f a) ;; ref' <- alloc b ;; ret (k, ref')) r.

(** [mapValues] is lazy: in the operations below the per-record work is run
    after all the statements of the method body, which is when Spark runs it
    relative to them. Each operation returns the new collection and [self]
    after its cache updates. *)

Definition maxProjection (self : Images) (axis : Z) : M (Images * Images) :=
  '(d, self1) <- get_dims self ;;
  if (Z.of_nat (length d) <=? axis)%Z then raise Exception_ else
  '(d2, self2) <- get_dims self1 ;;
  match py_del d2 axis with
  | None => raise IndexError
  | Some newdims =>
      proj <- mapValues (fun x => amax x axis) (rdd self2) ;;
      ret (__finalize__ (Images_init proj (Some newdims) None None) self2, self2)
  end.

Definition maxminProjection (self : Images) (axis : Z) : M (Images * Images) :=
  '(d, self1) <- get_dims self ;;
  match py_del d axis with
  | None => raise IndexError
  | Some newdims =>
      proj <- mapValues (fun x => match amax x axis, amin x axis with
                                  | inr mx, inr mn => np_add mx mn
                                  | inl e, _ | _, inl e => inl e
                                  end) (rdd self1) ;;
      ret (__finalize__ (Images_init proj (Some newdims) None None) self1, self1)
  end.

(** The [samplefactor] argument: an int, or a sequence of ints. *)
Inductive SampleFactor :=
  | SFScalar (sf : Z)
  | SFSeq (sfs : list Z).

Definition subsample (self : Images) (samplefactor : SampleFactor) : M (Images * Images) :=
  '(dims, self1) <- get_dims self ;;
  let ndims := length dims in
  let sf := match samplefactor with SFScalar z => repeat z ndims | SFSeq l => l end in
  if existsb (fun f => (f <=? 0)%Z) sf then raise ValueError else
  if Nat.ltb (length sf) ndims then raise IndexError else
  let pairs := combine dims (map Z.to_nat sf) in
  let sampleslices := map (fun '(d, f) => (d, f)) pairs in
  let newdims := map (fun '(d, f) => Nat.div d f) pairs in
  r <- mapValues (fun v => getslices v sampleslices) (rdd self1) ;;
  ret (__finalize__ (Images_init r (Some newdims) None None) self1, self1).

(** ** Filters *)

(** [im[:, :, z]] of a 3-D array. *)
Definition get_plane (a : ndarray) (z : nat) : ndarray :=
  let sh := firstn 2 (shape a) in
  mk_ndarray sh (dtype_of a) (map (fun idx => get a (idx ++ [z])) (indices sh)).

(** [im[:, :, z] = p] on a 3-D array. *)
Definition set_plane (a : ndarray) (z : nat) (p : ndarray) : ndarray :=
  mk_ndarray (shape a) (dtype_of a)
    (map (fun idx => if Nat.eqb (nth 2 idx 0%nat) z then get p (firstn 2 idx) else get a idx)
         (indices (shape a))).

(** The nested [filter] of the 2-D branch: a new array. *)
Definition filter_2d (f : ndarray -> ndarray) (im : Ref) : M Ref :=
  a <- deref im ;; alloc (f a).

(** The nested [filter] of the 3-D branch: [im.setflags(write=True)], then
    every plane [z] in [arange(0, dims[2])] is overwritten with its filtered
    version, and [im] itself is returned. *)
Definition filter_3d (f : ndarray -> ndarray) (dims2 : nat) (im : Ref) : M Ref :=
  fold_left (fun (m : M unit) z =>
               m ;;; a <- deref im ;;
               if Nat.leb (nth 2 (shape a) 0%nat) z then raise IndexError
               else store im (set_plane a z (f (get_plane a z))))
            (seq 0 dims2) (ret tt) ;;;
  ret im.

(** The function [filter] as the method body leaves it defined: [None] when
    [ndims] is neither 2 nor 3, where calling it raises [NameError]. *)
Definition filter_for (f : ndarray -> ndarray) (dims : Dimensions) : option (Ref -> M Ref) :=
  let ndims := length dims in
  if Nat.eqb ndims 3 then Some (filter_3d f (nth 2 dims 0%nat))
  else if Nat.eqb ndims 2 then Some (filter_2d f)
  else None.

(** [self.rdd.mapValues(lambda v: filter(v))], where [filter] may return
    its argument. *)
Definition mapValues_obj (g : Ref -> M Ref) (r : list (Key * Ref)) : M (list (Key * Ref)) :=
  mapM (fun '(k, ref) => ref' <- g ref ;; ret (k, ref')) r.

Definition apply_filter (filt : option (Ref -> M Ref)) (v : Ref) : M Ref :=
  match filt with Some f => f v | None => raise NameError end.

Section Filters.

(** [scipy.ndimage.filters.gaussian_filter(im, sigma)] and
    [median_filter(im, size)] on one image or plane. *)
Variable gaussian_filter : ndarray -> Z -> ndarray.
Variable median_filter : ndarray -> Z -> ndarray.

Definition gaussianFilter (self : Images) (sigma : Z) : M (Images * Images) :=
  '(dims, self1) <- get_dims self ;;
  let filter := filter_for (fun im => gaussian_filter im sigma) dims in
  r <- mapValues_obj (apply_filter filter) (rdd self1) ;;
  ret (__finalize__ (Images_init r None None None) self1, self1).

Definition medianFilter (self : Images) (size : Z) : M (Images * Images) :=
  '(dims, self1) <- get_dims self ;;
  let filter := filter_for (fun im => median_filter im size) dims in
  r <- mapValues_obj (apply_filter filter) (rdd self1) ;;
  ret (__finalize__ (Images_init r None None None) self1, self1).

End Filters.





(** ** [toBlocks] and [toSeries] *)

Inductive StratClass := SimpleBlockingStrategy | PaddedBlockingStrategy.

(** A [BlockingStrategy] instance built by the caller: its class and identity. *)
Record StrategyObj := mkStrategyObj { so_class : StratClass; so_id : nat }.

#[local] Set Warnings "-register-all".

(** The Python values a caller can pass as [blockSizeSpec] or [padding]. *)
Inductive pyvalue :=
  | PyNone
  | PyBool (b : bool)
  | PyInt (z : Z)
  | PyStr (s : string)
  | PyTuple (l : list pyvalue)
  | PyList (l : list pyvalue)
  | PyStrategy (o : StrategyObj).

(** Python truth value ([not x] is [negb (truthy x)]). *)
Definition truthy (v : pyvalue) : bool :=
  match v with
  | PyNone => false
  | PyBool b => b
  | PyInt z => negb (z =? 0)%Z
  | PyStr s => negb (String.eqb s "")
  | PyTuple l | PyList l => match l with [] => false | _ => true end
  | PyStrategy _ => true
  end.

(** How [toBlocks] obtains its strategy. *)
Inductive StratRequest :=
  | UseGiven (o : StrategyObj)
  | FromBlockSize (cls : StratClass) (spec padding : pyvalue)
  | FromSplits (cls : StratClass) (spec padding : pyvalue).

(** Lines 87-94 of [toBlocks]. [bool] is a subclass of [int]. *)
Definition chooseStrategy (blockSizeSpec padding : pyvalue) : StratRequest :=
  let stratClass := if negb (truthy padding) then SimpleBlockingStrategy
                    else PaddedBlockingStrategy in
  match blockSizeSpec with
  | PyStrategy o => UseGiven o
  | PyStr _ | PyInt _ | PyBool _ => FromBlockSize stratClass blockSizeSpec padding
  | _ => FromSplits stratClass blockSizeSpec padding
  end.

Definition key_eqb (a b : list Z) : bool :=
  if list_eq_dec Z.eq_dec a b then true else false.

(** [rdd.groupBy(f)]: one group per distinct key, holding every element
    with that key. *)
Definition groupBy {A} (f : A -> list Z) (l : list A) : list (list Z * list A) :=
  map (fun k => (k, filter (fun x => key_eqb (f x) k) l))
      (nodup (list_eq_dec Z.eq_dec) (map f l)).

(** Python's [<] on tuples of ints. *)
Fixpoint tuple_ltb (a b : list Z) : bool :=
  match a, b with
  | [], [] => false
  | [], _ :: _ => true
  | _ :: _, [] => false
  | x :: a', y :: b' => (x <? y)%Z || ((x =? y)%Z && tuple_ltb a' b')
  end.

Fixpoint insert_by {A} (f : A -> list Z) (x : A) (l : list A) : list A :=
  match l with
  | [] => [x]
  | y :: l' => if tuple_ltb (f y) (f x) then y :: insert_by f x l' else x :: l
  end.

(** [rdd.sortBy(f)], ascending. *)
Definition sortBy {A} (f : A -> list Z) (l : list A) : list A :=
  fold_right (insert_by f) [] l.

(** Modelled from the spec: the constructor of the returned [Blocks] class
    (thunder/rdds/imgblocks/blocks.py, not among the sources), which keeps
    its RDD and the [dims], [nimages] and [dtype] it is given. *)
Record Blocks (C B : Type) := mkBlocks {
  blocks_class : C;
  blocks_rdd : list B;
  blocks_dims : Dimensions;
  blocks_nimages : nat;
  blocks_dtype : string
}.
Arguments mkBlocks {C B}.
Arguments blocks_class {C B}.
Arguments blocks_rdd {C B}.
Arguments blocks_dims {C B}.
Arguments blocks_nimages {C B}.
Arguments blocks_dtype {C B}.

(** [self.rdd] with every array read. *)
Definition read_records (r : list (Key * Ref)) : M (list (Key * ndarray)) :=
  mapM (fun '(k, ref) => a <- deref ref ;; ret (k, a)) r.

Section Blocking.

(** The module [thunder.rdds.imgblocks.strategy] (not among the sources)
    enters as parameters: every statement below holds for every
    implementation of it. The strategy methods only read the [Images]
    object and the arrays. *)
Variables (Strat PKey Frag Block BlocksClass Series : Type).
Variable strategy_of_obj : StrategyObj -> Strat.
Variable generateFromBlockSize : StratClass -> Images -> St -> pyvalue -> pyvalue -> PyErr + Strat.
Variable newStrategy : StratClass -> pyvalue -> pyvalue -> PyErr + Strat.
Variable setImages : Strat -> Images -> St -> PyErr + Strat.
Variable calcAverageBlockSize : Strat -> Z.
Variable DEFAULT_MAX_BLOCK_SIZE : Z.
Variable blockingFunction : Strat -> Key * ndarray -> list (PKey * Frag).
Variable spatialKey : PKey -> list Z.
Variable combiningFunction : Strat -> list Z * list (PKey * Frag) -> Block.
Variable getBlocksClass : Strat -> BlocksClass.
(** [Blocks.toSeries()]. *)
Variable Blocks_toSeries : Blocks BlocksClass Block -> Series.

Definition realize (req : StratRequest) (self : Images) (s : St) : PyErr + Strat :=
  match req with
  | UseGiven o => inr (strategy_of_obj o)
  | FromBlockSize cls spec padding => generateFromBlockSize cls self s spec padding
  | FromSplits cls spec padding => newStrategy cls spec padding
  end.

(** The body of [toBlocks], with the class constant
    [BlockingStrategy.DEFAULT_MAX_BLOCK_SIZE] as parameter [maxSize]. *)
Definition toBlocks_at (maxSize : Z) (self : Images) (blockSizeSpec padding : pyvalue)
    : M (Blocks BlocksClass Block * Images) :=
  fun s =>
  (bs0 <- lift (realize (chooseStrategy blockSizeSpec padding) self s) ;;
   bs <- lift (setImages bs0 self s) ;;
   let avgSize := calcAverageBlockSize bs in
   (if (maxSize <=? avgSize)%Z then print (BlockSizeWarning avgSize maxSize) else ret tt) ;;;
   let returntype := getBlocksClass bs in
   recs <- read_records (rdd self) ;;
   let vals := flat_map (blockingFunction bs) recs in
   let groupedvals := sortBy (fun g => rev (fst g))
                        (groupBy (fun kv => spatialKey (fst kv)) vals) in
   let blockedvals := map (combiningFunction bs) groupedvals in
   '(dims, self1) <- get_dims self ;;
   let '(nimages, self2) := get_nimages self1 in
   '(dtype, self3) <- get_dtype self2 ;;
   ret (mkBlocks returntype blockedvals dims nimages dtype, self3)) s.

Definition toBlocks := toBlocks_at DEFAULT_MAX_BLOCK_SIZE.

(** [toSeries(blockSizeSpec)]: [self.toBlocks(blockSizeSpec).toSeries()]. *)
Definition toSeries (self : Images) (blockSizeSpec : pyvalue) : M (Series * Images) :=
  '(b, self') <- toBlocks self blockSizeSpec (PyInt 0) ;;
  ret (Blocks_toSeries b, self').

(** The docstring's reading of [toSeries]: "equivalent to
    images.toBlocks(blockSizeSpec).toSeries()", with [toBlocks]'s default
    padding. *)
Definition toSeries_spec (self : Images) (blockSizeSpec : pyvalue) : M (Series * Images) :=
  fun s => match toBlocks self blockSizeSpec (PyInt 0) s with
           | inl e => inl e
           | inr ((b, self'), s') => inr ((Blocks_toSeries b, self'), s')
           end.

End Blocking.

(** ** A concrete strategy module, used to run [toBlocks] on examples

    One block per pixel: the spatial key of a pixel is its multi-index, the
    partitioning key pairs it with the image key, and combining a group
    lists the group's values in the order received. *)
Module DemoStrategy.
Definition Strat := unit.
Definition PKey := (list Z * Key)%type.
Definition Frag := Z.
Definition Block := (list Z * list Z)%type.
Definition blockingFunction (_ : Strat) (kv : Key * ndarray) : list (PKey * Frag) :=
  map (fun idx => ((map Z.of_nat idx, fst kv), get (snd kv) idx)) (indices (shape (snd kv))).
Definition combiningFunction (_ : Strat) (g : list Z * list (PKey * Frag)) : Block :=
  (fst g, map snd (snd g)).
Definition toBlocks_at (maxSize : Z) (avg : Z) :=
  @toBlocks_at Strat PKey Frag Block unit
    (fun _ => tt) (fun _ _ _ _ _ => inr tt) (fun _ _ _ => inr tt) (fun s _ _ => inr s)
    (fun _ => avg) blockingFunction fst combiningFunction (fun _ => tt) maxSize.
Definition image_2x2 := mk_ndarray [2; 2]%nat "int64" [1; 2; 3; 4]%Z.
Definition images_one := Images_init [([0%Z], 0%nat)] None None None.
Definition st_one := mk_St [image_2x2] [].
End DemoStrategy.

(** The strategy class a request ends up with. *)
Definition request_class (r : StratRequest) : StratClass :=
  match r with
  | UseGiven o => so_class o
  | FromBlockSize c _ _ | FromSplits c _ _ => c
  end.

(** ** [planes] *)

(** [seq[i]] on a Python sequence. *)
Definition py_getitem {A} (l : list A) (i : Z) : PyErr + A :=
  match normalize_axis i (length l) with
  | Some n => match nth_error l n with Some x => inr x | None => inl IndexError end
  | None => inl IndexError
  end.

(** Modelled from the spec: [dims.min] and [dims.max] of the [Dimensions]
    object an [Images] caches (thunder/rdds/keys.py, not among the
    sources): 0 and [size - 1] on every axis. *)
Definition dims_min (d : Dimensions) : list Z := map (fun _ => 0%Z) d.
Definition dims_max (d : Dimensions) : list Z := map (fun n => Z.of_nat n - 1)%Z d.

(** [numpy.arange(lo, hi)] on ints. *)
Definition arange (lo hi : Z) : list Z :=
  map (fun i => lo + Z.of_nat i)%Z (seq 0 (Z.to_nat (hi - lo))).

(** [a.min()] and [a.max()] of a non-empty 1-D array. *)
Definition list_min (l : list Z) : Z :=
  match l with [] => 0%Z | x :: l' => fold_left Z.min l' x end.
Definition list_max (l : list Z) : Z :=
  match l with [] => 0%Z | x :: l' => fold_left Z.max l' x end.

(** Python's [x is True]. *)
Definition is_True (v : pyvalue) : bool :=
  match v with PyBool true => true | _ => false end.

(** The positions an integer index array selects along an axis of size
    [n]; [None] when one of them is out of bounds. *)
Fixpoint index_array (zs : list Z) (n : nat) : option (list nat) :=
  match zs with
  | [] => Some []
  | z :: zs' =>
      match normalize_axis z n, index_array zs' n with
      | Some i, Some is => Some (i :: is)
      | _, _ => None
      end
  end.

(** [v[:, :, zrange]]: integer-array indexing of the third axis. *)
Definition take_axis2 (v : ndarray) (zrange : list Z) : PyErr + ndarray :=
  match shape v with
  | s0 :: s1 :: s2 :: rest =>
      match index_array zrange s2 with
      | None => inl IndexError
      | Some zs =>
          let sh' := s0 :: s1 :: length zs :: rest in
          inr (mk_ndarray sh' (dtype_of v)
                 (map (fun idx => match idx with
                                  | i :: j :: m :: r => get v (i :: j :: nth m zs 0%nat :: r)
                                  | _ => 0%Z
                                  end) (indices sh')))
      end
  | _ => inl IndexError
  end.

(** [numpy.squeeze(a)]: every axis of length 1 removed, the data as it is. *)
Definition squeeze (a : ndarray) : ndarray :=
  mk_ndarray (filter (fun n => negb (Nat.eqb n 1)) (shape a)) (dtype_of a) (data a).

(** [self.dims[i]]. *)
Definition dims_item (self : Images) (i : Z) : M (nat * Images) :=
  '(d, self') <- get_dims self ;; x <- lift (py_getitem d i) ;; ret (x, self').

(** [planes(bottom, top, inclusive)]; every read of [self.dims] in the
    source is a read of the property here. *)
Definition planes (self : Images) (bottom top : Z) (inclusive : pyvalue)
    : M (Images * Images) :=
  '(d, self1) <- get_dims self ;;
  '(not3d, self2) <- (if Nat.eqb (length d) 2 then ret (true, self1)
                      else '(d2, self2) <- dims_item self1 2 ;; ret (Nat.eqb d2 1, self2)) ;;
  if not3d then raise Exception_ else
  let zrange := if is_True inclusive then arange bottom (top + 1) else arange (bottom + 1) top in
  if Nat.eqb (length zrange) 0 then raise Exception_ else
  '(d3, self3) <- get_dims self2 ;;
  zmin <- lift (py_getitem (dims_min d3) 2) ;;
  if (list_min zrange <? zmin)%Z then raise Exception_ else
  '(d4, self4) <- get_dims self3 ;;
  zmax <- lift (py_getitem (dims_max d4) 2) ;;
  if (zmax <? list_max zrange)%Z then raise Exception_ else
  '(x0, self5) <- dims_item self4 0 ;;
  '(x1, self6) <- dims_item self5 1 ;;
  let newdims := [x0; x1; length zrange] in
  let newdims := if Nat.ltb (length zrange) 2 then firstn 2 newdims else newdims in
  r <- mapValues (fun v => match take_axis2 v zrange with
                           | inl e => inl e
                           | inr a => inr (squeeze a)
                           end) (rdd self6) ;;
  ret (__finalize__ (Images_init r (Some newdims) None None) self6, self6).

(** ** [exportAsPngs] *)

(** Python 2's [isspace] on a character. *)
Definition is_space (c : ascii) : bool :=
  match nat_of_ascii c with 32 | 9 | 10 | 11 | 12 | 13 => true | _ => false end.

Fixpoint skip_spaces (l : list ascii) : list ascii :=
  match l with
  | c :: l' => if is_space c then skip_spaces l' else l
  | [] => []
  end.

Definition digit_of (c : ascii) : option nat :=
  let n := nat_of_ascii c in
  if (48 <=? n) && (n <=? 57) then Some (n - 48) else None.

(** The longest run of decimal digits at the front: its value, its length
    and what follows it. *)
Fixpoint read_digits (l : list ascii) (acc : Z) (n : nat) : Z * nat * list ascii :=
  match l with
  | c :: l' =>
      match digit_of c with
      | Some d => read_digits l' (acc * 10 + Z.of_nat d)%Z (S n)
      | None => (acc, n, l)
      end
  | [] => (acc, n, [])
  end.

(** [int(s)] for a [str] (base 10): blanks around the literal and between
    its sign and its digits are skipped. *)
Definition parse_int (s : string) : PyErr + Z :=
  let l := skip_spaces (list_ascii_of_string s) in
  let '(sign, l) := match l with
                    | c :: l' => if Ascii.eqb c "-"%char then ((-1)%Z, l')
                                 else if Ascii.eqb c "+"%char then (1%Z, l')
                                 else (1%Z, l)
                    | [] => (1%Z, l)
                    end in
  let '(v, n, rest) := read_digits (skip_spaces l) 0%Z 0 in
  if Nat.eqb n 0 then inl ValueError
  else match skip_spaces rest with [] => inr (sign * v)%Z | _ => inl ValueError end.

(** [int(x)]. *)
Definition py_int (v : pyvalue) : PyErr + Z :=
  match v with
  | PyInt z => inr z
  | PyBool b => inr (if b then 1%Z else 0%Z)
  | PyStr s => parse_int s
  | PyNone | PyTuple _ | PyList _ | PyStrategy _ => inl TypeError
  end.

(** The decimal digits of a natural number, without leading zeros. *)
Fixpoint digits_aux (fuel n : nat) : list nat :=
  match fuel with
  | O => []
  | S f => if n <? 10 then [n] else digits_aux f (n / 10) ++ [n mod 10]
  end.

Definition decimal_digits (n : nat) : list nat := digits_aux (S n) n.

Definition digit_char (d : nat) : ascii := ascii_of_nat (48 + d).

Definition zero_pad (w : nat) (ds : list nat) : list nat :=
  repeat 0%nat (w - length ds) ++ ds.

(** ["%05d" % k]: at least five characters, zero-filled after the sign. *)
Definition format_05d (k : Z) : string :=
  string_of_list_ascii
    (if (k <? 0)%Z
     then "-"%char :: map digit_char (zero_pad 4 (decimal_digits (Z.to_nat (- k))))
     else map digit_char (zero_pad 5 (decimal_digits (Z.to_nat k)))).

(** Record keys are tuples of ints ([_check_type]). *)
Definition key_value (k : Key) : pyvalue := PyTuple (map PyInt k).

Section PngExport.

(** The png bytes [imsave] writes into a [BytesIO], and the writers of
    thunder/rdds/fileio/writers.py (not among the sources), which enter as
    parameters: [newCollectedWriter] stands for
    [getCollectedFileWriterForPath(outputdirname)(outputdirname,
    overwrite=overwrite)], [newParallelWriter] likewise. *)
Variables (Buf CollectedWriter ParallelWriter : Type).
Variable imsave_png : ndarray -> Buf.
Variable newCollectedWriter : string -> bool -> PyErr + CollectedWriter.
Variable writeCollectedFiles : CollectedWriter -> list (string * Buf) -> M unit.
Variable newParallelWriter : string -> bool -> PyErr + ParallelWriter.
Variable writerFcn : ParallelWriter -> string * Buf -> M unit.

(** The nested [toFilenameAndPngBuf]. *)
Definition toFilenameAndPngBuf (fileprefix : string) (kv : pyvalue * ndarray)
    : PyErr + (string * Buf) :=
  let '(key, img) := kv in
  match py_int key with
  | inl e => inl e
  | inr k => inr ((fileprefix ++ (format_05d k ++ ".png"))%string, imsave_png img)
  end.

(** [exportAsPngs]: [bufrdd] is computed when [collect] or [foreach] runs,
    after the writer is built. *)
Definition exportAsPngs (self : Images) (outputdirname fileprefix : string)
    (overwrite collectToDriver : bool) : M (unit * Images) :=
  '(dims, self1) <- get_dims self ;;
  if negb (Nat.eqb (length dims) 2) then raise ValueError else
  let toBuf := fun (kv : Key * Ref) =>
    img <- deref (snd kv) ;; lift (toFilenameAndPngBuf fileprefix (key_value (fst kv), img)) in
  if collectToDriver then
    writer <- lift (newCollectedWriter outputdirname overwrite) ;;
    bufs <- mapM toBuf (rdd self1) ;;
    writeCollectedFiles writer bufs ;;;
    ret (tt, self1)
  else
    writer <- lift (newParallelWriter outputdirname overwrite) ;;
    mapM (fun kv => b <- toBuf kv ;; writerFcn writer b) (rdd self1) ;;;
    ret (tt, self1).

End PngExport.

(** Every record of the collection holds an array of the heap. *)
Definition records_valid (self : Images) (s : St) : bool :=
  forallb (fun kv => Nat.ltb (snd kv) (length (heap s))) (rdd self).

(** Every record holds an array of the heap with [n] axes. *)
Definition records_rank (self : Images) (s : St) (n : nat) : bool :=
  forallb (fun kv => match nth_error (heap s) (snd kv) with
                     | Some a => Nat.eqb (length (shape a)) n
                     | None => false
                     end) (rdd self).

(** Every record holds an array of the heap of shape [d] whose data has
    one value per element. *)
Definition records_have_shape (self : Images) (s : St) (d : Dimensions) : bool :=
  forallb (fun kv => match nth_error (heap s) (snd kv) with
                     | Some a => (if list_eq_dec Nat.eq_dec (shape a) d then true else false)
                                 && Nat.eqb (length (data a)) (fold_right Nat.mul 1 (shape a))
                     | None => false
                     end) (rdd self).

(** The number a list of decimal digits writes, most significant first. *)
Fixpoint digits_value (ds : list nat) : nat :=
  match ds with
  | [] => 0
  | d :: ds' => d * 10 ^ length ds' + digits_value ds'
  end.

(** The planes [planes] selects: [zrange] as the method computes it, and
    its first and last entries. *)
Definition planes_zrange (bottom top : Z) (inclusive : pyvalue) : list Z :=
  if is_True inclusive then arange bottom (top + 1) else arange (bottom + 1) top.
Definition planes_lo (bottom : Z) (inclusive : pyvalue) : Z :=
  if is_True inclusive then bottom else (bottom + 1)%Z.
Definition planes_hi (top : Z) (inclusive : pyvalue) : Z :=
  if is_True inclusive then top else (top - 1)%Z.

(** Example inputs. *)
Definition array_4x4 := mk_ndarray [4; 4]%nat "int64" (map Z.of_nat (seq 0 16)).
Definition array_5x5 := mk_ndarray [5; 5]%nat "int64" (map Z.of_nat (seq 0 25)).
Definition array_2x2x3 := mk_ndarray [2; 2; 3]%nat "int64" (map Z.of_nat (seq 0 12)).
Definition one_image := Images_init [([0%Z], 0%nat)] None None None.

(** A computation that only reads the heap: its outcome depends on the heap
    alone and it leaves the state as it found it. *)
Definition heap_reader {A} (m : M A) : Prop :=
  forall s s2, heap s2 = heap s ->
  m s2 = match m s with inl e => inl e | inr (x, _) => inr (x, s2) end.

(** An outcome with the standard output left out. *)
Definition drop_stdout {A} (r : PyErr + (A * St)) : PyErr + (A * list ndarray) :=
  match r with inl e => inl e | inr (x, s) => inr (x, heap s) end.

(** * Properties *)

Ltac split_M H :=
  repeat match type of H with
  | context[match ?x with _ => _ end] =>
      lazymatch x with match _ with _ => _ end => fail | _ => idtac end;
      let E := fresh "E" in destruct x eqn:E; try (simpl in H; discriminate H)
  end.

Lemma get_dims_inv : forall self s d self1 s1,
  get_dims self s = inr ((d, self1), s1) ->
  s1 = s /\ rdd self1 = rdd self /\ _dims self1 = Some d /\ _nimages self1 = _nimages self.
Proof.
  intros self s d self1 s1 H. unfold get_dims in H.
  destruct (_dims self) eqn:E.
  - cbv [ret] in H. inversion H; subst. auto.
  - cbv [bind populateParamsFromFirstRecord rdd_first deref raise ret] in H.
    destruct (rdd self) as [|[k r] rs] eqn:R; [discriminate|].
    simpl in H. destruct (nth_error (heap s) r) eqn:N; [|discriminate].
    inversion H; subst. simpl. auto.
Qed.

Lemma get_dims_cached : forall self d s,
  _dims self = Some d -> get_dims self s = inr ((d, self), s).
Proof. intros self d s E. unfold get_dims. rewrite E. reflexivity. Qed.

Lemma py_del_out_of_range : forall {A} (l : list A) axis,
  (Z.of_nat (length l) <= axis)%Z -> py_del l axis = None.
Proof.
  intros A l axis H. unfold py_del, normalize_axis.
  destruct ((0 <=? axis)%Z && (axis <? Z.of_nat (length l))%Z) eqn:E1.
  - apply andb_true_iff in E1. destruct E1 as [_ E1]. apply Z.ltb_lt in E1. lia.
  - destruct ((- Z.of_nat (length l) <=? axis)%Z && (axis <? 0)%Z) eqn:E2; [|reflexivity].
    apply andb_true_iff in E2. destruct E2 as [_ E2]. apply Z.ltb_lt in E2. lia.
Qed.

Lemma finalize_dims_set : forall r d n t other,
  _dims (__finalize__ (Images_init r (Some d) n t) other) = Some d.
Proof. reflexivity. Qed.

(** Filters: the per-record functions. *)







(** ** The [nimages] cache *)

(** Claim C6: without a supplied [nimages], reading the property counts the
    records and caches the count (a second read returns it unchanged);
    after [_resetCounts] the next read counts again; a supplied value is
    returned as it is, without counting. *)
Theorem nimages_counted_cached_and_reset :
  (forall r dims dtype,
     get_nimages (Images_init r dims None dtype)
     = (length r, Images_init r dims (Some (length r)) dtype)) /\
  (forall self n self', get_nimages self = (n, self') -> get_nimages self' = (n, self')) /\
  (forall self, get_nimages (_resetCounts self)
                = (length (rdd self), set_nimages self (Some (length (rdd self))))) /\
  (forall r dims n dtype,
     get_nimages (Images_init r dims (Some n) dtype) = (n, Images_init r dims (Some n) dtype)).
Proof.
  split; [reflexivity|]. split; [|split; reflexivity].
  intros self n self' H. unfold get_nimages in *.
  destruct (_nimages self) eqn:E; inversion H; subst.
  - rewrite E. reflexivity.
  - reflexivity.
Qed.

(** ** Projections *)

(** Claim C9, as the code has it: an axis [>=] the rank is refused when the
    method is called, before any per-record work: by [maxProjection]'s
    explicit check ([Exception]) and, in [maxminProjection], by the
    [IndexError] of [del newdims[axis]]. On success both cache the original
    [dims] with the axis deleted. *)
Theorem projections_refuse_axis_at_call_time : forall self s axis d self1 s1,
  get_dims self s = inr ((d, self1), s1) ->
  ((Z.of_nat (length d) <= axis)%Z ->
     maxProjection self axis s = inl Exception_ /\
     maxminProjection self axis s = inl IndexError) /\
  (forall new self' s', maxProjection self axis s = inr ((new, self'), s') ->
     _dims new = py_del d axis) /\
  (forall new self' s', maxminProjection self axis s = inr ((new, self'), s') ->
     _dims new = py_del d axis).
Proof.
  intros self s axis d self1 s1 Hd.
  destruct (get_dims_inv _ _ _ _ _ Hd) as (-> & Hr & Hc & _).
  split; [|split].
  - intros Hax. unfold maxProjection, maxminProjection. cbv [bind]. rewrite Hd.
    apply Z.leb_le in Hax. rewrite Hax.
    rewrite (py_del_out_of_range d axis) by (apply Z.leb_le; exact Hax).
    split; reflexivity.
  - intros new self' s' H. unfold maxProjection in H. cbv [bind] in H. rewrite Hd in H.
    destruct (Z.of_nat (length d) <=? axis)%Z; [discriminate|].
    rewrite (get_dims_cached _ _ _ Hc) in H.
    destruct (py_del d axis) as [nd|] eqn:Hdel; [|discriminate].
    split_M H. inversion H; subst. reflexivity.
  - intros new self' s' H. unfold maxminProjection in H. cbv [bind] in H. rewrite Hd in H.
    destruct (py_del d axis) as [nd|] eqn:Hdel; [|discriminate].
    split_M H. inversion H; subst. reflexivity.
Qed.

Lemma projections_refuse_axis_at_call_time_witness :
  get_dims one_image (mk_St [array_4x4] []) = inr (([4; 4]%nat, set_dims (set_dtype one_image (Some "int64"%string)) (Some [4; 4]%nat)), mk_St [array_4x4] []) /\
  maxProjection one_image 2 (mk_St [array_4x4] []) = inl Exception_ /\
  maxminProjection one_image 2 (mk_St [array_4x4] []) = inl IndexError.
Proof.
  split; [reflexivity|].
  apply (proj1 (projections_refuse_axis_at_call_time one_image (mk_St [array_4x4] []) 2
                  [4; 4]%nat (set_dims (set_dtype one_image (Some "int64"%string)) (Some [4; 4]%nat))
                  (mk_St [array_4x4] []) eq_refl)).
  simpl. lia.
Defined.

(** Claim C9 fails as stated: [maxminProjection] on a 4x4 image refuses
    axis 2 when it is called. *)
Lemma maxminProjection_refuses_axis_2_of_2d :
  maxminProjection one_image 2 (mk_St [array_4x4] []) = inl IndexError.
Proof. reflexivity. Qed.

(** ** Subsampling *)

(** Claim C7: on a 5x5 image, [subsample(2)] caches [dims] (2, 2) while the
    record's array, the strided slice [v[0:5:2, 0:5:2]], has shape (3, 3). *)
Theorem subsample_caches_floor_not_slice_length :
  match subsample one_image (SFScalar 2) (mk_St [array_5x5] []) with
  | inr ((new, _), s') =>
      _dims new = Some [2; 2]%nat /\
      map (fun '(_, r) => option_map shape (nth_error (heap s') r)) (rdd new)
      = [Some [3; 3]%nat]
  | inl _ => False
  end.
Proof. vm_compute. split; reflexivity. Qed.

(** ** Filters *)




(** ** Computations that only read the heap *)

Lemma heap_reader_state : forall {A} (m : M A) s x s',
  heap_reader m -> m s = inr (x, s') -> s' = s.
Proof.
  intros A m s x s' Hm H. pose proof (Hm s s eq_refl) as E.
  rewrite H in E. inversion E. reflexivity.
Qed.

Lemma heap_reader_ret : forall {A} (a : A), heap_reader (ret a).
Proof. intros A a s s2 _. reflexivity. Qed.

Lemma heap_reader_raise : forall {A} e, heap_reader (@raise A e).
Proof. intros A e s s2 _. reflexivity. Qed.

Lemma heap_reader_deref : forall r, heap_reader (deref r).
Proof.
  intros r s s2 E. unfold deref. rewrite E.
  destruct (nth_error (heap s) r); reflexivity.
Qed.

Lemma heap_reader_bind : forall {A B} (m : M A) (k : A -> M B),
  heap_reader m -> (forall a, heap_reader (k a)) -> heap_reader (bind m k).
Proof.
  intros A B m k Hm Hk s s2 E. unfold bind.
  rewrite (Hm s s2 E).
  destruct (m s) as [e|[x s']] eqn:Ems; [reflexivity|].
  rewrite (heap_reader_state m s x s' Hm Ems) in *.
  apply Hk. exact E.
Qed.

Lemma heap_reader_mapM : forall {A B} (f : A -> M B) l,
  (forall a, heap_reader (f a)) -> heap_reader (mapM f l).
Proof.
  intros A B f l Hf. induction l as [|a l IH]; simpl.
  - apply heap_reader_ret.
  - apply heap_reader_bind; [apply Hf|]. intros y.
    apply heap_reader_bind; [exact IH|]. intros ys. apply heap_reader_ret.
Qed.

Create HintDb heap_reader.
#[local] Hint Resolve heap_reader_ret heap_reader_raise heap_reader_deref
  heap_reader_bind heap_reader_mapM : heap_reader.

Lemma heap_reader_read_records : forall r, heap_reader (read_records r).
Proof.
  intros r. unfold read_records. apply heap_reader_mapM. intros [k ref].
  auto with heap_reader.
Qed.

Lemma heap_reader_populate : forall self, heap_reader (populateParamsFromFirstRecord self).
Proof.
  intros self. unfold populateParamsFromFirstRecord, rdd_first.
  apply heap_reader_bind.
  - destruct (rdd self); auto with heap_reader.
  - intros a. auto with heap_reader.
Qed.

Lemma heap_reader_get_dims : forall self, heap_reader (get_dims self).
Proof.
  intros self. unfold get_dims. destruct (_dims self).
  - apply heap_reader_ret.
  - apply heap_reader_bind; [apply heap_reader_populate|].
    intros [[_ a] self']. apply heap_reader_ret.
Qed.

Lemma heap_reader_get_dtype : forall self, heap_reader (get_dtype self).
Proof.
  intros self. unfold get_dtype. destruct (_dtype self).
  - apply heap_reader_ret.
  - apply heap_reader_bind; [apply heap_reader_populate|].
    intros [[_ a] self']. apply heap_reader_ret.
Qed.

#[local] Hint Resolve heap_reader_read_records heap_reader_get_dims
  heap_reader_get_dtype : heap_reader.

(** ** Python tuple order *)

Lemma tuple_ltb_irrefl : forall a, tuple_ltb a a = false.
Proof.
  induction a as [|x a IH]; simpl; [reflexivity|].
  rewrite Z.ltb_irrefl, Z.eqb_refl, IH. reflexivity.
Qed.

Lemma tuple_ltb_trans : forall a b c,
  tuple_ltb a b = true -> tuple_ltb b c = true -> tuple_ltb a c = true.
Proof.
  induction a as [|x a IH]; intros [|y b] [|z c] H1 H2; simpl in *; try discriminate; auto.
  apply orb_true_iff in H1, H2. apply orb_true_iff.
  destruct H1 as [H1|H1]; destruct H2 as [H2|H2];
    repeat match goal with
    | H : _ && _ = true |- _ => apply andb_true_iff in H; destruct H
    | H : (_ <? _)%Z = true |- _ => apply Z.ltb_lt in H
    | H : (_ =? _)%Z = true |- _ => apply Z.eqb_eq in H
    end.
  - left. apply Z.ltb_lt. lia.
  - left. apply Z.ltb_lt. lia.
  - left. apply Z.ltb_lt. lia.
  - right. apply andb_true_iff. split; [apply Z.eqb_eq; lia | eauto].
Qed.

Lemma tuple_ltb_total : forall a b,
  a <> b -> tuple_ltb a b = true \/ tuple_ltb b a = true.
Proof.
  induction a as [|x a IH]; intros [|y b] Hne; simpl; try congruence; auto.
  destruct (Z.lt_trichotomy x y) as [H|[H|H]].
    + left. apply orb_true_iff. left. apply Z.ltb_lt. exact H.
    + subst y. rewrite Z.eqb_refl, Z.ltb_irrefl. simpl.
      apply IH. congruence.
    + right. apply orb_true_iff. left. apply Z.ltb_lt. exact H.
Qed.

(** ** [sortBy] and [groupBy] *)

Section SortGroup.
Variable A : Type.
Variable f : A -> list Z.

Lemma insert_by_perm : forall x l, Permutation (insert_by f x l) (x :: l).
Proof.
  intros x l. induction l as [|y l IH]; simpl; [reflexivity|].
  destruct (tuple_ltb (f y) (f x)); [|reflexivity].
  rewrite IH. apply perm_swap.
Qed.

Lemma sortBy_perm : forall l, Permutation (sortBy f l) l.
Proof.
  induction l as [|x l IH]; simpl; [reflexivity|].
  rewrite insert_by_perm. apply perm_skip. exact IH.
Qed.

Lemma insert_by_sorted : forall x l,
  Sorted (fun a b => tuple_ltb (f a) (f b) = true) l ->
  ~ In (f x) (map f l) ->
  Sorted (fun a b => tuple_ltb (f a) (f b) = true) (insert_by f x l).
Proof.
  intros x l. induction l as [|y l IH]; intros Hs Hin; simpl.
  - repeat constructor.
  - inversion Hs as [|y' l' Hl Hhd]; subst.
    destruct (tuple_ltb (f y) (f x)) eqn:E.
    + constructor.
      * apply IH; [exact Hl|]. intros H. apply Hin. right. exact H.
      * destruct l as [|z l]; simpl.
        -- constructor. exact E.
        -- inversion Hhd; subst.
           destruct (tuple_ltb (f z) (f x)); constructor; assumption.
    + constructor; [exact Hs|]. constructor.
      destruct (tuple_ltb_total (f x) (f y)) as [H|H]; [|exact H|congruence].
      intros Heq. apply Hin. left. symmetry. exact Heq.
Qed.

Lemma sortBy_sorted : forall l, NoDup (map f l) ->
  StronglySorted (fun a b => tuple_ltb (f a) (f b) = true) (sortBy f l).
Proof.
  intros l Hnd. apply Sorted_StronglySorted.
  { intros a b c. apply tuple_ltb_trans. }
  induction l as [|x l IH]; simpl; [constructor|].
  simpl in Hnd. inversion Hnd; subst.
  apply insert_by_sorted; [apply IH; assumption|].
  intros Hin. apply H1.
  apply (Permutation_in (f x) (Permutation_map f (sortBy_perm l))). exact Hin.
Qed.

Lemma groupBy_keys : forall l, map fst (groupBy f l) = nodup (list_eq_dec Z.eq_dec) (map f l).
Proof. intros l. unfold groupBy. rewrite map_map. apply map_id. Qed.

Lemma groupBy_member : forall l k g,
  In (k, g) (groupBy f l) -> g = filter (fun x => key_eqb (f x) k) l.
Proof.
  intros l k g H. unfold groupBy in H. apply in_map_iff in H.
  destruct H as [k' [E _]]. inversion E; subst. reflexivity.
Qed.

Lemma groupBy_key_occurs : forall l k g,
  In (k, g) (groupBy f l) -> exists x, In x l /\ f x = k.
Proof.
  intros l k g H. unfold groupBy in H. apply in_map_iff in H.
  destruct H as [k' [E Hk]]. inversion E; subst.
  apply nodup_In, in_map_iff in Hk. destruct Hk as [x [Ex Hx]]. eauto.
Qed.

Lemma groupBy_covers : forall l x,
  In x l -> In (f x, filter (fun y => key_eqb (f y) (f x)) l) (groupBy f l).
Proof.
  intros l x H. unfold groupBy. apply in_map_iff. exists (f x). split; [reflexivity|].
  apply nodup_In, in_map_iff. eauto.
Qed.

End SortGroup.

Lemma NoDup_map_rev : forall (l : list (list Z)), NoDup l -> NoDup (map (@rev Z) l).
Proof.
  induction l as [|x l IH]; intros H; simpl; constructor.
  - inversion H; subst. intros Hin. apply in_map_iff in Hin.
    destruct Hin as [y [E Hy]]. apply (f_equal (@rev Z)) in E.
    rewrite !rev_involutive in E. subst. contradiction.
  - inversion H; subst. apply IH. assumption.
Qed.

Lemma groupBy_rev_keys_nodup : forall {A} (f : A -> list Z) l,
  NoDup (map (fun g => rev (fst g)) (groupBy f l)).
Proof.
  intros A f l. rewrite <- (map_map fst (@rev Z)), groupBy_keys.
  apply NoDup_map_rev, NoDup_nodup.
Qed.

(** ** [toBlocks] *)

Section BlockingFacts.

Variables (Strat PKey Frag Block BlocksClass Series : Type).
Variable strategy_of_obj : StrategyObj -> Strat.
Variable generateFromBlockSize : StratClass -> Images -> St -> pyvalue -> pyvalue -> PyErr + Strat.
Variable newStrategy : StratClass -> pyvalue -> pyvalue -> PyErr + Strat.
Variable setImages : Strat -> Images -> St -> PyErr + Strat.
Variable calcAverageBlockSize : Strat -> Z.
Variable blockingFunction : Strat -> Key * ndarray -> list (PKey * Frag).
Variable spatialKey : PKey -> list Z.
Variable combiningFunction : Strat -> list Z * list (PKey * Frag) -> Block.
Variable getBlocksClass : Strat -> BlocksClass.

Abbreviation toBlocks_at := (@toBlocks_at Strat PKey Frag Block BlocksClass strategy_of_obj generateFromBlockSize newStrategy
  setImages calcAverageBlockSize blockingFunction spatialKey combiningFunction getBlocksClass).
Abbreviation realize := (@realize Strat strategy_of_obj generateFromBlockSize newStrategy).

(** What a successful [toBlocks] did, step by step. *)
Lemma toBlocks_at_success : forall t self spec pad s b self' s',
  toBlocks_at t self spec pad s = inr ((b, self'), s') ->
  exists bs0 bs recs self1 self2,
    realize (chooseStrategy spec pad) self s = inr bs0 /\
    setImages bs0 self s = inr bs /\
    read_records (rdd self) s = inr (recs, s) /\
    get_dims self s = inr ((blocks_dims b, self1), s) /\
    get_nimages self1 = (blocks_nimages b, self2) /\
    get_dtype self2 s = inr ((blocks_dtype b, self'), s) /\
    blocks_class b = getBlocksClass bs /\
    blocks_rdd b = map (combiningFunction bs)
                     (sortBy (fun g => rev (fst g))
                        (groupBy (fun kv => spatialKey (fst kv))
                           (flat_map (blockingFunction bs) recs))) /\
    s' = (if (t <=? calcAverageBlockSize bs)%Z
          then mk_St (heap s) (stdout s ++ [BlockSizeWarning (calcAverageBlockSize bs) t])
          else s).
Proof.
  intros t self spec pad s b self' s' H.
  unfold toBlocks_at in H. cbv [bind lift] in H.
  destruct (realize _ _ _) as [e|bs0] eqn:E1; [discriminate|].
  destruct (setImages bs0 self s) as [e|bs] eqn:E2; [discriminate|].
  exists bs0, bs.
  destruct (t <=? calcAverageBlockSize bs)%Z eqn:E3; cbv [print ret] in H;
  rewrite (heap_reader_read_records (rdd self) s) in H by reflexivity;
  destruct (read_records (rdd self) s) as [e|[recs s0]] eqn:E4; try discriminate;
  pose proof (heap_reader_state _ _ _ _ (heap_reader_read_records _) E4); subst s0;
  rewrite (heap_reader_get_dims self s) in H by reflexivity;
  destruct (get_dims self s) as [e|[[d self1] s1]] eqn:E5; try discriminate;
  pose proof (heap_reader_state _ _ _ _ (heap_reader_get_dims _) E5); subst s1;
  destruct (get_nimages self1) as [n self2] eqn:E6;
  rewrite (heap_reader_get_dtype self2 s) in H by reflexivity;
  destruct (get_dtype self2 s) as [e|[[dt self3] s3]] eqn:E7; try discriminate;
  pose proof (heap_reader_state _ _ _ _ (heap_reader_get_dtype _) E7); subst s3;
  inversion H; subst; exists recs, self1, self2; simpl; repeat split; auto.
Qed.

(** Claim C1: [toBlocks] splits every record with the strategy's blocking
    function, groups the fragments by spatial key, sorts the groups by the
    reversed key tuple and then combines each group. The groups are those
    of the grouping step, reordered only; each holds exactly the fragments
    with its key; every fragment is in the group of its key; and the blocks
    come out strictly ascending in the reversed key tuple, so the key's
    first axis changes fastest. *)
Theorem toBlocks_split_group_sort_combine : forall t self spec pad s b self' s',
  toBlocks_at t self spec pad s = inr ((b, self'), s') ->
  exists bs recs groups,
    read_records (rdd self) s = inr (recs, s) /\
    let frags := flat_map (blockingFunction bs) recs in
    blocks_rdd b = map (combiningFunction bs) groups /\
    Permutation groups (groupBy (fun kv => spatialKey (fst kv)) frags) /\
    StronglySorted (fun g1 g2 => tuple_ltb (rev (fst g1)) (rev (fst g2)) = true) groups /\
    (forall k fs, In (k, fs) groups ->
       fs = filter (fun x => key_eqb (spatialKey (fst x)) k) frags /\
       exists x, In x frags /\ spatialKey (fst x) = k) /\
    (forall x, In x frags ->
       In (spatialKey (fst x), filter (fun y => key_eqb (spatialKey (fst y)) (spatialKey (fst x))) frags) groups).
Proof.
  intros t self spec pad s b self' s' H.
  destruct (toBlocks_at_success _ _ _ _ _ _ _ _ H)
    as (bs0 & bs & recs & self1 & self2 & _ & _ & Hrec & _ & _ & _ & _ & Hrdd & _).
  set (frags := flat_map (blockingFunction bs) recs).
  set (grouped := groupBy (fun kv : PKey * Frag => spatialKey (fst kv)) frags).
  exists bs, recs, (sortBy (fun g => rev (fst g)) grouped).
  split; [exact Hrec|]. cbv zeta.
  split; [exact Hrdd|].
  split; [apply sortBy_perm|].
  split; [apply sortBy_sorted, groupBy_rev_keys_nodup|].
  split.
  - intros k fs Hin.
    apply (Permutation_in _ (sortBy_perm _ _ grouped)) in Hin.
    split; [eapply groupBy_member; exact Hin | eapply groupBy_key_occurs; exact Hin].
  - intros x Hx. apply (Permutation_in _ (Permutation_sym (sortBy_perm _ _ grouped))).
    exact (groupBy_covers _ (fun kv : PKey * Frag => spatialKey (fst kv)) frags x Hx).
Qed.

(** Claim C2: the returned [Blocks] carries the [dims], [nimages] and
    [dtype] that the source collection's properties give when [toBlocks]
    reads them, and the source's records are untouched. *)
Theorem toBlocks_carries_dims_nimages_dtype : forall t self spec pad s b self' s',
  toBlocks_at t self spec pad s = inr ((b, self'), s') ->
  rdd self' = rdd self /\
  (exists self1, get_dims self s = inr ((blocks_dims b, self1), s) /\
     exists self2, get_nimages self1 = (blocks_nimages b, self2) /\
       get_dtype self2 s = inr ((blocks_dtype b, self'), s)) /\
  fst (get_nimages self) = blocks_nimages b.
Proof.
  intros t self spec pad s b self' s' H.
  destruct (toBlocks_at_success _ _ _ _ _ _ _ _ H)
    as (bs0 & bs & recs & self1 & self2 & _ & _ & _ & Hd & Hn & Ht & _).
  destruct (get_dims_inv _ _ _ _ _ Hd) as (_ & Hr1 & _ & Hn1).
  assert (Hr2 : rdd self2 = rdd self1 /\ _nimages self1 = None \/ self2 = self1).
  { unfold get_nimages in Hn. destruct (_nimages self1) eqn:E; inversion Hn; subst; auto. }
  assert (Hr3 : rdd self' = rdd self2).
  { unfold get_dtype in Ht. destruct (_dtype self2).
    - inversion Ht; reflexivity.
    - cbv [bind populateParamsFromFirstRecord rdd_first deref raise ret] in Ht.
      split_M Ht. inversion Ht; subst. reflexivity. }
  split; [|split].
  - rewrite Hr3. destruct Hr2 as [[-> _]| ->]; exact Hr1.
  - exists self1. split; [exact Hd|]. exists self2. split; assumption.
  - unfold get_nimages in *. rewrite Hn1 in Hn. rewrite Hr1 in Hn.
    destruct (_nimages self); inversion Hn; reflexivity.
Qed.

(** Claim C5: the block-size warning only adds a line of output. The
    outcome of [toBlocks] with the output left out is the same for every
    threshold, and when it succeeds it has printed the warning exactly when
    the average block size reached the threshold. *)
Theorem toBlocks_warning_is_output_only : forall t1 t2 self spec pad s,
  drop_stdout (toBlocks_at t1 self spec pad s) = drop_stdout (toBlocks_at t2 self spec pad s) /\
  (forall b self' s', toBlocks_at t1 self spec pad s = inr ((b, self'), s') ->
     exists bs0 bs, realize (chooseStrategy spec pad) self s = inr bs0 /\
       setImages bs0 self s = inr bs /\
       stdout s' = stdout s ++ (if (t1 <=? calcAverageBlockSize bs)%Z
                                then [BlockSizeWarning (calcAverageBlockSize bs) t1] else [])).
Proof.
  intros t1 t2 self spec pad s. split.
  - unfold toBlocks_at. cbv [bind lift].
    destruct (realize _ _ _) as [e|bs0]; [reflexivity|].
    destruct (setImages bs0 self s) as [e|bs]; [reflexivity|].
    set (sp1 := match (if (t1 <=? calcAverageBlockSize bs)%Z
                       then print (BlockSizeWarning (calcAverageBlockSize bs) t1) else ret tt) s
                with inl _ => s | inr (_, s1) => s1 end).
    set (sp2 := match (if (t2 <=? calcAverageBlockSize bs)%Z
                       then print (BlockSizeWarning (calcAverageBlockSize bs) t2) else ret tt) s
                with inl _ => s | inr (_, s1) => s1 end).
    assert (Hp1 : (if (t1 <=? calcAverageBlockSize bs)%Z
                   then print (BlockSizeWarning (calcAverageBlockSize bs) t1) else ret tt) s
                  = inr (tt, sp1) /\ heap sp1 = heap s).
    { subst sp1. destruct (t1 <=? _)%Z; split; reflexivity. }
    assert (Hp2 : (if (t2 <=? calcAverageBlockSize bs)%Z
                   then print (BlockSizeWarning (calcAverageBlockSize bs) t2) else ret tt) s
                  = inr (tt, sp2) /\ heap sp2 = heap s).
    { subst sp2. destruct (t2 <=? _)%Z; split; reflexivity. }
    destruct Hp1 as [-> Hh1]. destruct Hp2 as [-> Hh2].
    clearbody sp1 sp2.
    rewrite (heap_reader_read_records (rdd self) s sp1 Hh1),
            (heap_reader_read_records (rdd self) s sp2 Hh2).
    destruct (read_records (rdd self) s) as [e|[recs s0]]; [reflexivity|].
    rewrite (heap_reader_get_dims self s sp1 Hh1), (heap_reader_get_dims self s sp2 Hh2).
    destruct (get_dims self s) as [e|[[d self1] s1]]; [reflexivity|].
    destruct (get_nimages self1) as [n self2].
    rewrite (heap_reader_get_dtype self2 s sp1 Hh1), (heap_reader_get_dtype self2 s sp2 Hh2).
    destruct (get_dtype self2 s) as [e|[[dt self3] s3]]; [reflexivity|].
    simpl. rewrite Hh1, Hh2. reflexivity.
  - intros b self' s' H.
    destruct (toBlocks_at_success _ _ _ _ _ _ _ _ H)
      as (bs0 & bs & recs & self1 & self2 & Hr & Hs & _ & _ & _ & _ & _ & _ & Hst).
    exists bs0, bs. split; [exact Hr|]. split; [exact Hs|].
    rewrite Hst. destruct (t1 <=? _)%Z; simpl; [reflexivity|]. rewrite app_nil_r. reflexivity.
Qed.


End BlockingFacts.

Section SeriesFacts.

Variables (Strat PKey Frag Block BlocksClass Series : Type).
Variable strategy_of_obj : StrategyObj -> Strat.
Variable generateFromBlockSize : StratClass -> Images -> St -> pyvalue -> pyvalue -> PyErr + Strat.
Variable newStrategy : StratClass -> pyvalue -> pyvalue -> PyErr + Strat.
Variable setImages : Strat -> Images -> St -> PyErr + Strat.
Variable calcAverageBlockSize : Strat -> Z.
Variable DEFAULT_MAX_BLOCK_SIZE : Z.
Variable blockingFunction : Strat -> Key * ndarray -> list (PKey * Frag).
Variable spatialKey : PKey -> list Z.
Variable combiningFunction : Strat -> list Z * list (PKey * Frag) -> Block.
Variable getBlocksClass : Strat -> BlocksClass.
Variable Blocks_toSeries : Blocks BlocksClass Block -> Series.

(** Claim C10, as the code has it: [toSeries(spec)] is exactly
    [toBlocks(spec)] with padding 0 followed by [Blocks.toSeries()]; for a
    [blockSizeSpec] that is not a [BlockingStrategy] instance this means
    the unpadded strategy class. *)
Theorem toSeries_is_unpadded_toBlocks_then_toSeries : forall self spec s,
  @toSeries Strat PKey Frag Block BlocksClass Series strategy_of_obj generateFromBlockSize newStrategy setImages calcAverageBlockSize
    DEFAULT_MAX_BLOCK_SIZE blockingFunction spatialKey combiningFunction getBlocksClass
    Blocks_toSeries self spec s
  = @toSeries_spec Strat PKey Frag Block BlocksClass Series strategy_of_obj generateFromBlockSize newStrategy setImages calcAverageBlockSize
    DEFAULT_MAX_BLOCK_SIZE blockingFunction spatialKey combiningFunction getBlocksClass
    Blocks_toSeries self spec s /\
  ((forall o, spec <> PyStrategy o) ->
     request_class (chooseStrategy spec (PyInt 0)) = SimpleBlockingStrategy).
Proof.
  intros self spec s. split.
  - unfold toSeries, toSeries_spec. cbv [bind ret].
    match goal with
    | |- match ?x with _ => _ end = _ => destruct x as [e|[[b self'] s']]
    end; reflexivity.
  - intros H. unfold chooseStrategy. simpl.
    destruct spec; try reflexivity. exfalso. eapply H. reflexivity.
Qed.

End SeriesFacts.

(** Claim C4, as the code has it: a [BlockingStrategy] instance passed as
    [blockSizeSpec] is used whatever [padding] is; otherwise the padded
    class is chosen exactly when [padding] is truthy in Python ([not
    padding] is false), so any non-empty tuple, even [(0, 0)], selects it. *)
Theorem chooseStrategy_class_follows_truthiness : forall spec pad,
  (forall o, spec = PyStrategy o -> request_class (chooseStrategy spec pad) = so_class o) /\
  ((forall o, spec <> PyStrategy o) ->
     request_class (chooseStrategy spec pad)
     = if truthy pad then PaddedBlockingStrategy else SimpleBlockingStrategy).
Proof.
  intros spec pad. split.
  - intros o ->. reflexivity.
  - intros H. unfold chooseStrategy.
    destruct spec; try (exfalso; eapply H; reflexivity);
      destruct (truthy pad); reflexivity.
Qed.

Lemma chooseStrategy_class_follows_truthiness_witness :
  request_class (chooseStrategy (PyStr "150M") (PyTuple [PyInt 0; PyInt 0]))
  = PaddedBlockingStrategy.
Proof.
  rewrite (proj2 (chooseStrategy_class_follows_truthiness (PyStr "150M")
                    (PyTuple [PyInt 0; PyInt 0]))); [reflexivity|].
  intros o H. discriminate H.
Defined.

(** Claim C4 fails as stated: padding [(0, 0)] selects the padded class, and
    a given simple strategy stays simple under padding 3. *)
Lemma chooseStrategy_zero_tuple_selects_padded :
  request_class (chooseStrategy (PyStr "150M") (PyTuple [PyInt 0; PyInt 0]))
    = PaddedBlockingStrategy /\
  request_class (chooseStrategy (PyStrategy (mkStrategyObj SimpleBlockingStrategy 0)) (PyInt 3))
    = SimpleBlockingStrategy.
Proof. split; reflexivity. Qed.


(** Claim C10 fails as stated: [toSeries] with a pre-built padded strategy
    uses the padded class. *)
Lemma toSeries_accepts_padded_strategy :
  request_class (chooseStrategy (PyStrategy (mkStrategyObj PaddedBlockingStrategy 0)) (PyInt 0))
  = PaddedBlockingStrategy.
Proof. reflexivity. Qed.

(** ** Runs on concrete inputs *)

(** One 2x2 image, one block per pixel: the blocks come out with the first
    axis of the spatial key changing fastest. *)
Example demo_block_order :
  match DemoStrategy.toBlocks_at 10 20 DemoStrategy.images_one (PyStr "1M") (PyInt 0)
          DemoStrategy.st_one with
  | inr ((b, _), _) => map fst (blocks_rdd b) = [[0; 0]; [1; 0]; [0; 1]; [1; 1]]%Z
  | inl _ => False
  end.
Proof. vm_compute. reflexivity. Qed.

Lemma toBlocks_split_group_sort_combine_witness :
  exists b self' s',
    DemoStrategy.toBlocks_at 10 20 DemoStrategy.images_one (PyStr "1M") (PyInt 0)
      DemoStrategy.st_one = inr ((b, self'), s') /\
    exists bs groups,
      blocks_rdd b = map (DemoStrategy.combiningFunction bs) groups /\
      StronglySorted (fun g1 g2 : list Z * list (DemoStrategy.PKey * DemoStrategy.Frag) =>
                        tuple_ltb (rev (fst g1)) (rev (fst g2)) = true) groups.
Proof.
  destruct (DemoStrategy.toBlocks_at 10 20 DemoStrategy.images_one (PyStr "1M") (PyInt 0)
              DemoStrategy.st_one) as [e|[[b self'] s']] eqn:E.
  - vm_compute in E. discriminate E.
  - exists b, self', s'. split; [reflexivity|].
    unfold DemoStrategy.toBlocks_at in E.
    destruct (toBlocks_split_group_sort_combine _ _ _ _ _ _ _ _ _ _ _ _ _ _ _ _ _ _ _ _ _ _ E)
      as (bs & recs & groups & _ & Hb & _ & Hs & _).
    exists bs, groups. split; assumption.
Defined.

Lemma toBlocks_carries_dims_nimages_dtype_witness :
  exists b self' s',
    DemoStrategy.toBlocks_at 10 20 DemoStrategy.images_one (PyStr "1M") (PyInt 0)
      DemoStrategy.st_one = inr ((b, self'), s') /\
    fst (get_nimages DemoStrategy.images_one) = blocks_nimages b.
Proof.
  destruct (DemoStrategy.toBlocks_at 10 20 DemoStrategy.images_one (PyStr "1M") (PyInt 0)
              DemoStrategy.st_one) as [e|[[b self'] s']] eqn:E.
  - vm_compute in E. discriminate E.
  - exists b, self', s'. split; [reflexivity|].
    unfold DemoStrategy.toBlocks_at in E.
    exact (proj2 (proj2
      (toBlocks_carries_dims_nimages_dtype _ _ _ _ _ _ _ _ _ _ _ _ _ _ _ _ _ _ _ _ _ _ E))).
Defined.

Lemma toBlocks_warning_is_output_only_witness :
  exists b self' s',
    DemoStrategy.toBlocks_at 10 20 DemoStrategy.images_one (PyStr "1M") (PyInt 0)
      DemoStrategy.st_one = inr ((b, self'), s') /\
    stdout s' = [BlockSizeWarning 20 10].
Proof.
  destruct (DemoStrategy.toBlocks_at 10 20 DemoStrategy.images_one (PyStr "1M") (PyInt 0)
              DemoStrategy.st_one) as [e|[[b self'] s']] eqn:E.
  - vm_compute in E. discriminate E.
  - exists b, self', s'. split; [reflexivity|].
    unfold DemoStrategy.toBlocks_at in E.
    destruct (proj2 (toBlocks_warning_is_output_only
                       DemoStrategy.Strat DemoStrategy.PKey DemoStrategy.Frag DemoStrategy.Block unit
                       (fun _ => tt) (fun _ _ _ _ _ => inr tt) (fun _ _ _ => inr tt)
                       (fun s _ _ => inr s) (fun _ => 20%Z) DemoStrategy.blockingFunction fst
                       DemoStrategy.combiningFunction (fun _ => tt) 10 20
                       DemoStrategy.images_one (PyStr "1M") (PyInt 0) DemoStrategy.st_one)
                b self' s' E) as (bs0 & bs & _ & _ & Hout).
    rewrite Hout. reflexivity.
Defined.


Lemma toSeries_is_unpadded_toBlocks_then_toSeries_witness :
  request_class (chooseStrategy (PyStr "1M") (PyInt 0)) = SimpleBlockingStrategy.
Proof.
  apply (proj2 (toSeries_is_unpadded_toBlocks_then_toSeries
    DemoStrategy.Strat DemoStrategy.PKey DemoStrategy.Frag DemoStrategy.Block unit
    (list DemoStrategy.Block)
    (fun _ => tt) (fun _ _ _ _ _ => inr tt) (fun _ _ _ => inr tt) (fun s _ _ => inr s)
    (fun _ => 0%Z) 10%Z DemoStrategy.blockingFunction fst DemoStrategy.combiningFunction
    (fun _ => tt) (@blocks_rdd unit DemoStrategy.Block)
    DemoStrategy.images_one (PyStr "1M") DemoStrategy.st_one)).
  intros o H. discriminate H.
Defined.

Lemma nimages_counted_cached_and_reset_witness :
  get_nimages (set_nimages one_image (Some 1%nat)) = (1%nat, set_nimages one_image (Some 1%nat)).
Proof.
  apply (proj1 (proj2 nimages_counted_cached_and_reset) one_image). reflexivity.
Defined.

(** * Further properties of the operations *)

Lemma map_add_seq : forall k s n, map (Nat.add k) (seq s n) = seq (k + s) n.
Proof.
  intros k s n. revert s. induction n as [|n IH]; intros s; simpl; [reflexivity|].
  rewrite IH. f_equal. f_equal. lia.
Qed.

Lemma indices_length : forall sh, length (indices sh) = fold_right Nat.mul 1 sh.
Proof.
  induction sh as [|n sh IH]; [reflexivity|]. simpl.
  assert (H : forall a, length (flat_map (fun i => map (cons i) (indices sh)) (seq a n))
                         = n * fold_right Nat.mul 1 sh).
  { induction n as [|n IHn]; intros a; [reflexivity|]. simpl.
    rewrite length_app, length_map, IHn, IH. lia. }
  apply H.
Qed.

Lemma flat_index_indices : forall sh,
  map (flat_index sh) (indices sh) = seq 0 (fold_right Nat.mul 1 sh).
Proof.
  induction sh as [|n sh IH]; [reflexivity|]. simpl.
  set (P := fold_right Nat.mul 1 sh).
  assert (H : forall a, map (flat_index (n :: sh))
                          (flat_map (fun i => map (cons i) (indices sh)) (seq a n))
                        = seq (a * P) (n * P)).
  { induction n as [|n IHn]; intros a; [reflexivity|]. simpl seq. simpl flat_map.
    rewrite map_app, IHn, map_map. cbn [flat_index]. fold P.
    replace (map (fun x => a * P + flat_index sh x) (indices sh))
      with (map (Nat.add (a * P)) (map (flat_index sh) (indices sh)))
      by (rewrite map_map; reflexivity).
    rewrite IH, map_add_seq, Nat.add_0_r.
    replace (P + n * P) with (P + n * P) by lia.
    rewrite seq_app. f_equal. f_equal. lia. }
  rewrite H. reflexivity.
Qed.

Lemma nth_error_indices_flat : forall sh idx,
  In idx (indices sh) -> nth_error (indices sh) (flat_index sh idx) = Some idx.
Proof.
  intros sh idx Hin. destruct (In_nth_error _ _ Hin) as [p Hp].
  assert (Hlt : p < fold_right Nat.mul 1 sh).
  { rewrite <- indices_length. apply nth_error_Some. congruence. }
  assert (E : nth_error (map (flat_index sh) (indices sh)) p = Some (flat_index sh idx)).
  { rewrite nth_error_map, Hp. reflexivity. }
  rewrite flat_index_indices, nth_error_seq in E.
  destruct (Nat.ltb_spec p (fold_right Nat.mul 1 sh)); [|lia].
  inversion E; subst. simpl. exact Hp.
Qed.

Lemma get_map_indices : forall sh t f idx,
  In idx (indices sh) -> get (mk_ndarray sh t (map f (indices sh))) idx = f idx.
Proof.
  intros sh t f idx Hin. unfold get. simpl.
  apply nth_error_nth. rewrite nth_error_map, nth_error_indices_flat by exact Hin.
  reflexivity.
Qed.

Lemma map_nth_seq_length : forall {A} (l : list A) d,
  map (fun p => nth p l d) (seq 0 (length l)) = l.
Proof.
  intros A l d. induction l as [|x l IH]; [reflexivity|].
  simpl length. cbn [seq map]. rewrite <- seq_shift, map_map. simpl. rewrite IH. reflexivity.
Qed.

Lemma get_all_indices : forall a,
  length (data a) = fold_right Nat.mul 1 (shape a) ->
  map (get a) (indices (shape a)) = data a.
Proof.
  intros a Hl. unfold get.
  replace (map (fun idx => nth (flat_index (shape a) idx) (data a) 0%Z) (indices (shape a)))
    with (map (fun p => nth p (data a) 0%Z) (map (flat_index (shape a)) (indices (shape a))))
    by (rewrite map_map; reflexivity).
  rewrite flat_index_indices, <- Hl. apply map_nth_seq_length.
Qed.

Lemma reduce_axis_spec : forall op a ax b,
  reduce_axis op a ax = inr b ->
  exists i n, normalize_axis ax (length (shape a)) = Some i /\ nth i (shape a) 0%nat = S n /\
    shape b = firstn i (shape a) ++ skipn (S i) (shape a) /\
    forall idx, In idx (indices (shape b)) ->
      get b idx = fold_left (fun acc k => op acc (get a (insert_at i k idx)))
                    (seq 1 n) (get a (insert_at i 0 idx)).
Proof.
  intros op a ax b H. unfold reduce_axis in H.
  destruct (normalize_axis ax (length (shape a))) as [i|] eqn:Ei; [|discriminate].
  destruct (nth i (shape a) 0%nat) as [|n] eqn:En; [discriminate|].
  inversion H; subst. exists i, n. repeat split; try assumption.
  intros idx Hin. simpl in Hin. apply get_map_indices. exact Hin.
Qed.


Lemma fold_max_spec : forall (g : nat -> Z) l x,
  (x <= fold_left (fun acc k => Z.max acc (g k)) l x)%Z /\
  (forall k, In k l -> g k <= fold_left (fun acc k => Z.max acc (g k)) l x)%Z /\
  (fold_left (fun acc k => Z.max acc (g k)) l x = x \/
   exists k, In k l /\ fold_left (fun acc k => Z.max acc (g k)) l x = g k).
Proof.
  intros g l. induction l as [|y l IH]; intros x; simpl.
  - split; [lia|]. split; [tauto|]. left; reflexivity.
  - destruct (IH (Z.max x (g y))) as (H1 & H2 & H3). split; [lia|]. split.
    + intros k [<-|Hk]; [lia|]. apply H2, Hk.
    + destruct H3 as [H3|(k & Hk & H3)].
      * rewrite H3. destruct (Z.max_spec x (g y)) as [[_ ->]|[_ ->]]; [right; eauto|left; reflexivity].
      * right. eauto.
Qed.


(** Maximum of [g 0 .. g n]. *)
Lemma axis_max : forall (g : nat -> Z) n,
  (forall k, (k < S n)%nat -> g k <= fold_left (fun acc k => Z.max acc (g k)) (seq 1 n) (g 0%nat))%Z /\
  exists k, (k < S n)%nat /\ fold_left (fun acc k => Z.max acc (g k)) (seq 1 n) (g 0%nat) = g k.
Proof.
  intros g n. destruct (fold_max_spec g (seq 1 n) (g 0%nat)) as (H1 & H2 & H3). split.
  - intros k Hk. destruct k as [|k]; [exact H1|]. apply H2, in_seq. lia.
  - destruct H3 as [H3|(k & Hk & H3)]; [exists 0%nat; split; [lia|exact H3]|].
    apply in_seq in Hk. exists k. split; [lia|exact H3].
Qed.


Lemma Forall_Forall2 : forall {A B} (P : A -> Prop) (R : A -> B -> Prop) l l',
  Forall P l -> Forall2 R l l' -> Forall2 (fun x y => P x /\ R x y) l l'.
Proof.
  intros A B P R l l' HP HR. induction HR; [constructor|].
  inversion HP; subst. constructor; auto.
Qed.

(** [mapValues]: the keys are kept, every new record holds a new array
    computed from the old one, and the heap only grows. *)
Lemma mapValues_inv : forall f r s r' s',
  Forall (fun kv => snd kv < length (heap s))%nat r ->
  mapValues f r s = inr (r', s') ->
  (exists ext, heap s' = heap s ++ ext) /\
  Forall2 (fun x y => fst x = fst y /\
             exists a b, nth_error (heap s) (snd x) = Some a /\ f a = inr b /\
                         nth_error (heap s') (snd y) = Some b) r r'.
Proof.
  intros f r. unfold mapValues. induction r as [|[k ref] r IH]; intros s r' s' Hv H.
  - inversion H; subst. split; [exists []; rewrite app_nil_r; reflexivity | constructor].
  - inversion Hv as [|? ? Hk Hr]; subst. simpl in Hk.
    simpl in H. cbv [bind deref lift alloc ret] in H.
    destruct (nth_error (heap s) ref) as [a|] eqn:Ea; [|discriminate].
    destruct (f a) as [e|b] eqn:Eb; [discriminate|].
    simpl in H.
    set (s1 := {| heap := heap s ++ [b]; stdout := stdout s |}) in H.
    match type of H with
    | match ?m with _ => _ end = _ => destruct m as [e|[rs s2]] eqn:Er; [discriminate|]
    end.
    inversion H; subst.
    assert (Hv1 : Forall (fun kv => snd kv < length (heap s1))%nat r).
    { eapply Forall_impl; [|exact Hr]. intros kv Hkv. unfold s1. simpl. rewrite length_app. simpl. cbv beta in Hkv. lia. }
    destruct (IH _ _ _ Hv1 Er) as [[ext Hext] HF].
    split.
    + exists ([b] ++ ext). rewrite Hext. unfold s1. simpl. rewrite <- app_assoc. reflexivity.
    + constructor.
      * split; [reflexivity|]. exists a, b. repeat split; [exact Ea | exact Eb|].
        simpl. rewrite Hext. unfold s1. simpl. rewrite <- app_assoc, nth_error_app2 by lia.
        rewrite Nat.sub_diag. reflexivity.
      * eapply Forall2_impl; [|exact (Forall_Forall2 _ _ _ _ Hr HF)].
        intros x y (Hx & Hxy & a' & b' & Ha' & Hb' & Hy). split; [exact Hxy|].
        exists a', b'. repeat split; try assumption.
        unfold s1 in Ha'. simpl in Ha'. rewrite nth_error_app1 in Ha'; [exact Ha'|exact Hx].
Qed.

Lemma nth_error_heap_app : forall (h ext : list ndarray) r a,
  nth_error h r = Some a -> nth_error (h ++ ext) r = Some a.
Proof.
  intros h ext r a H. rewrite nth_error_app1; [exact H|]. apply nth_error_Some. congruence.
Qed.

Lemma Forall_heap_app : forall (P : ndarray -> Prop) (r : list (Key * Ref)) h ext,
  Forall (fun kv => exists a, nth_error h (snd kv) = Some a /\ P a) r ->
  Forall (fun kv => exists a, nth_error (h ++ ext) (snd kv) = Some a /\ P a) r.
Proof.
  intros P r h ext H. eapply Forall_impl; [|exact H].
  intros kv (a & Ha & Pa). exists a. split; [apply nth_error_heap_app; exact Ha | exact Pa].
Qed.

Lemma mapValues_ext : forall f g r s,
  Forall (fun kv => exists a, nth_error (heap s) (snd kv) = Some a /\ f a = g a) r ->
  mapValues f r s = mapValues g r s.
Proof.
  intros f g r. unfold mapValues. induction r as [|[k ref] r IH]; intros s H; [reflexivity|].
  apply Forall_cons_iff in H as [(a & Ea & Efg) Hr]. simpl in Ea.
  simpl. cbv [bind deref lift alloc ret]. rewrite Ea, Efg.
  destruct (g a) as [e|b]; [reflexivity|].
  rewrite IH; [reflexivity|]. apply Forall_heap_app. exact Hr.
Qed.

Lemma mapValues_ok : forall f r s,
  Forall (fun kv => exists a, nth_error (heap s) (snd kv) = Some a /\ exists b, f a = inr b) r ->
  exists r' s', mapValues f r s = inr (r', s').
Proof.
  intros f r. unfold mapValues. induction r as [|[k ref] r IH]; intros s H; [do 2 eexists; reflexivity|].
  apply Forall_cons_iff in H as [(a & Ea & b & Eb) Hr]. simpl in Ea.
  simpl. cbv [bind deref lift alloc ret]. rewrite Ea, Eb.
  destruct (IH {| heap := heap s ++ [b]; stdout := stdout s |}) as (r' & s' & E).
  - apply (Forall_heap_app (fun a => exists b, f a = inr b)). exact Hr.
  - cbv [bind deref lift alloc ret] in E. rewrite E. eauto.
Qed.

Lemma records_valid_Forall : forall self s,
  records_valid self s = true -> Forall (fun kv => snd kv < length (heap s))%nat (rdd self).
Proof.
  intros self s H. unfold records_valid in H. apply Forall_forall. intros x Hx.
  rewrite forallb_forall in H. apply Nat.ltb_lt, H, Hx.
Qed.

Lemma maxProjection_inv : forall self axis s out self' s',
  maxProjection self axis s = inr ((out, self'), s') ->
  exists d nd, get_dims self s = inr ((d, self'), s) /\ py_del d axis = Some nd /\
    rdd self' = rdd self /\ _dims out = Some nd /\
    mapValues (fun x => amax x axis) (rdd self) s = inr (rdd out, s').
Proof.
  intros self axis s out self' s' H. unfold maxProjection in H. cbv [bind] in H.
  destruct (get_dims self s) as [e|[[d self1] s1]] eqn:Ed; [discriminate|].
  destruct (get_dims_inv _ _ _ _ _ Ed) as (-> & Hr & Hc & _).
  destruct (Z.of_nat (length d) <=? axis)%Z; [discriminate|].
  rewrite (get_dims_cached _ _ _ Hc) in H.
  destruct (py_del d axis) as [nd|] eqn:Hdel; [|discriminate].
  rewrite Hr in H.
  destruct (mapValues _ _ s) as [e|[proj s2]] eqn:Em; [discriminate|].
  cbv [ret] in H. inversion H; subst. exists d, nd. repeat split; auto.
Qed.


Lemma py_del_normalize : forall {A} (l : list A) axis nd,
  py_del l axis = Some nd ->
  exists i, normalize_axis axis (length l) = Some i /\ nd = firstn i l ++ skipn (S i) l.
Proof.
  intros A l axis nd H. unfold py_del in H.
  destruct (normalize_axis axis (length l)) as [i|]; [|discriminate].
  inversion H; subst. eauto.
Qed.

(** [maxProjection]: on success the new collection caches [dims] with the
    axis deleted, and record by record keeps the key and holds a new array
    whose shape is the source's without the axis and whose every entry is
    the largest of the values along the axis (it bounds them all and is
    one of them). *)
Theorem maxProjection_takes_maximum : forall self axis s out self' s',
  records_valid self s = true ->
  maxProjection self axis s = inr ((out, self'), s') ->
  exists d nd, get_dims self s = inr ((d, self'), s) /\ py_del d axis = Some nd /\
  _dims out = Some nd /\
  Forall2 (fun x y => fst x = fst y /\
    exists a b i, nth_error (heap s) (snd x) = Some a /\ nth_error (heap s') (snd y) = Some b /\
      normalize_axis axis (length (shape a)) = Some i /\
      shape b = firstn i (shape a) ++ skipn (S i) (shape a) /\
      (shape a = d -> shape b = nd) /\
      forall idx, In idx (indices (shape b)) ->
        (forall k, (k < nth i (shape a) 0)%nat -> (get a (insert_at i k idx) <= get b idx)%Z) /\
        exists k, (k < nth i (shape a) 0)%nat /\ get b idx = get a (insert_at i k idx))
    (rdd self) (rdd out).
Proof.
  intros self axis s out self' s' Hv H.
  destruct (maxProjection_inv _ _ _ _ _ _ H) as (d & nd & Hd & Hdel & _ & Hdims & Hm).
  exists d, nd. do 3 (split; [assumption|]).
  destruct (mapValues_inv _ _ _ _ _ (records_valid_Forall _ _ Hv) Hm) as [_ HF].
  eapply Forall2_impl; [|exact HF].
  intros x y (Hxy & a & b & Ha & Hab & Hb). split; [exact Hxy|].
  destruct (reduce_axis_spec _ _ _ _ Hab) as (i & n & Hi & Hn & Hsh & Hget).
  exists a, b, i. do 4 (split; [assumption|]). split.
  - intros Had. destruct (py_del_normalize _ _ _ Hdel) as (i' & Hi' & ->).
    rewrite Had in Hi. rewrite Hi in Hi'. inversion Hi'; subst i'. rewrite Hsh, Had. reflexivity.
  - intros idx Hidx. rewrite (Hget idx Hidx), Hn.
    apply (axis_max (fun k => get a (insert_at i k idx)) n).
Qed.



Lemma normalize_axis_negative : forall ax r,
  (- Z.of_nat r <= ax < 0)%Z -> normalize_axis ax r = normalize_axis (ax + Z.of_nat r) r.
Proof.
  intros ax r H. unfold normalize_axis.
  replace ((0 <=? ax)%Z && (ax <? Z.of_nat r)%Z) with false
    by (symmetry; apply andb_false_iff; left; apply Z.leb_gt; lia).
  replace ((- Z.of_nat r <=? ax)%Z && (ax <? 0)%Z) with true
    by (symmetry; apply andb_true_iff; split; [apply Z.leb_le | apply Z.ltb_lt]; lia).
  replace ((0 <=? ax + Z.of_nat r)%Z && (ax + Z.of_nat r <? Z.of_nat r)%Z) with true
    by (symmetry; apply andb_true_iff; split; [apply Z.leb_le | apply Z.ltb_lt]; lia).
  reflexivity.
Qed.

Lemma normalize_axis_below : forall ax r,
  (ax < - Z.of_nat r)%Z -> normalize_axis ax r = None.
Proof.
  intros ax r H. unfold normalize_axis.
  replace ((0 <=? ax)%Z && (ax <? Z.of_nat r)%Z) with false
    by (symmetry; apply andb_false_iff; left; apply Z.leb_gt; lia).
  replace ((- Z.of_nat r <=? ax)%Z && (ax <? 0)%Z) with false
    by (symmetry; apply andb_false_iff; left; apply Z.leb_gt; lia).
  reflexivity.
Qed.

Lemma records_rank_Forall : forall self s n,
  records_rank self s n = true ->
  Forall (fun kv => exists a, nth_error (heap s) (snd kv) = Some a /\ length (shape a) = n) (rdd self).
Proof.
  intros self s n H. unfold records_rank in H. rewrite forallb_forall in H.
  apply Forall_forall. intros x Hx. specialize (H x Hx).
  destruct (nth_error (heap s) (snd x)) as [a|]; [|discriminate].
  exists a. split; [reflexivity|]. apply Nat.eqb_eq, H.
Qed.

(** Both projections read the axis as Python indexes a list: an axis below
    [-rank] raises [IndexError] when the method is called, and when every
    record has the cached rank, an axis in [-rank, 0) gives the same
    outcome as [axis + rank]. *)
Theorem projections_negative_axis : forall self s d self1 s1,
  get_dims self s = inr ((d, self1), s1) ->
  (forall axis, (axis < - Z.of_nat (length d))%Z ->
     maxProjection self axis s = inl IndexError /\ maxminProjection self axis s = inl IndexError) /\
  (records_rank self s (length d) = true ->
   forall axis, (- Z.of_nat (length d) <= axis < 0)%Z ->
     maxProjection self axis s = maxProjection self (axis + Z.of_nat (length d)) s /\
     maxminProjection self axis s = maxminProjection self (axis + Z.of_nat (length d)) s).
Proof.
  intros self s d self1 s1 Hd.
  destruct (get_dims_inv _ _ _ _ _ Hd) as (-> & Hr & Hc & _).
  assert (Hdel : forall axis, py_del d axis = match normalize_axis axis (length d) with
                                               | Some i => Some (firstn i d ++ skipn (S i) d)
                                               | None => None end) by reflexivity.
  split.
  - intros axis Hax. unfold maxProjection, maxminProjection. cbv [bind]. rewrite Hd.
    replace (Z.of_nat (length d) <=? axis)%Z with false by (symmetry; apply Z.leb_gt; lia).
    rewrite (get_dims_cached _ _ _ Hc), Hdel, normalize_axis_below by exact Hax.
    split; reflexivity.
  - intros Hrank axis Hax.
    pose proof (records_rank_Forall _ _ _ Hrank) as HF. rewrite <- Hr in HF.
    unfold maxProjection, maxminProjection. cbv [bind]. rewrite Hd.
    replace (Z.of_nat (length d) <=? axis)%Z with false by (symmetry; apply Z.leb_gt; lia).
    replace (Z.of_nat (length d) <=? axis + Z.of_nat (length d))%Z with false
      by (symmetry; apply Z.leb_gt; lia).
    rewrite (get_dims_cached _ _ _ Hc), !Hdel, normalize_axis_negative by exact Hax.
    destruct (normalize_axis (axis + Z.of_nat (length d)) (length d)) as [i|]; [|split; reflexivity].
    assert (Hax' : forall a, length (shape a) = length d ->
                   forall op, reduce_axis op a axis = reduce_axis op a (axis + Z.of_nat (length d))).
    { intros a Ha op. unfold reduce_axis. rewrite Ha, normalize_axis_negative by exact Hax. reflexivity. }
    split.
    + rewrite (mapValues_ext (fun x => amax x axis) (fun x => amax x (axis + Z.of_nat (length d)))).
      * reflexivity.
      * eapply Forall_impl; [|exact HF]. intros kv (a & Ea & Ra). exists a. split; [exact Ea|].
        apply Hax'. exact Ra.
    + rewrite (mapValues_ext _ (fun x => match amax x (axis + Z.of_nat (length d)),
                                               amin x (axis + Z.of_nat (length d)) with
                                         | inr mx, inr mn => np_add mx mn
                                         | inl e, _ | _, inl e => inl e
                                         end)).
      * reflexivity.
      * eapply Forall_impl; [|exact HF]. intros kv (a & Ea & Ra). exists a. split; [exact Ea|].
        unfold amax, amin. rewrite !(Hax' a Ra). reflexivity.
Qed.

Lemma indices_length_In : forall sh idx, In idx (indices sh) -> length idx = length sh.
Proof.
  induction sh as [|n sh IH]; intros idx H; simpl in H.
  - destruct H as [<-|[]]. reflexivity.
  - apply in_flat_map in H as (i & _ & H). apply in_map_iff in H as (idx' & <- & H).
    simpl. f_equal. apply IH, H.
Qed.

Lemma getslices_step_one : forall a,
  length (data a) = fold_right Nat.mul 1 (shape a) ->
  getslices a (map (fun n => (n, 1%nat)) (shape a)) = inr a.
Proof.
  intros a Hl. unfold getslices. rewrite length_map, Nat.ltb_irrefl.
  assert (Hsh : forall sh, sliced_shape sh (map (fun n => (n, 1%nat)) sh) = sh).
  { induction sh as [|n sh IH]; [reflexivity|]. cbn [sliced_shape map]. rewrite IH. f_equal.
    unfold slice_len. rewrite Nat.min_id, Nat.div_1_r. lia. }
  assert (Hsrc : forall sh idx, length idx = length sh ->
                 source_index (map (fun n => (n, 1%nat)) sh) idx = idx).
  { induction sh as [|n sh IH]; intros idx Hlen; destruct idx as [|i idx]; try discriminate;
      [reflexivity|]. simpl. rewrite Nat.mul_1_r, IH by (simpl in Hlen; lia). reflexivity. }
  rewrite Hsh.
  rewrite (map_ext_in _ (get a)) by (intros idx Hidx; rewrite Hsrc by (apply indices_length_In; exact Hidx); reflexivity).
  rewrite get_all_indices by exact Hl. destruct a. reflexivity.
Qed.

Lemma combine_repeat_one : forall (d : list nat),
  combine d (map Z.to_nat (repeat 1%Z (length d))) = map (fun n => (n, 1%nat)) d.
Proof. induction d as [|n d IH]; [reflexivity|]. simpl. rewrite IH. reflexivity. Qed.

Lemma records_have_shape_Forall : forall self s d,
  records_have_shape self s d = true ->
  Forall (fun kv => exists a, nth_error (heap s) (snd kv) = Some a /\
            shape a = d /\ length (data a) = fold_right Nat.mul 1 (shape a)) (rdd self).
Proof.
  intros self s d H. unfold records_have_shape in H. rewrite forallb_forall in H.
  apply Forall_forall. intros x Hx. specialize (H x Hx).
  destruct (nth_error (heap s) (snd x)) as [a|]; [|discriminate].
  apply andb_true_iff in H as [H1 H2].
  destruct (list_eq_dec Nat.eq_dec (shape a) d) as [E|]; [|discriminate].
  exists a. split; [reflexivity|]. split; [exact E|]. apply Nat.eqb_eq, H2.
Qed.

(** [subsample(1)] succeeds when every record holds an array of the cached
    shape: the new collection caches the same [dims], keeps the keys, and
    holds new arrays (the heap only grows) equal to the source arrays. *)
Theorem subsample_by_one_copies_arrays : forall self s d self1 s1,
  get_dims self s = inr ((d, self1), s1) ->
  records_have_shape self s d = true ->
  exists out s', subsample self (SFScalar 1) s = inr ((out, self1), s') /\
    _dims out = Some d /\
    (exists ext, heap s' = heap s ++ ext) /\
    Forall2 (fun x y => fst x = fst y /\ nth_error (heap s') (snd y) = nth_error (heap s) (snd x))
      (rdd self) (rdd out).
Proof.
  intros self s d self1 s1 Hd Hsh.
  destruct (get_dims_inv _ _ _ _ _ Hd) as (-> & Hr & _ & _).
  pose proof (records_have_shape_Forall _ _ _ Hsh) as HF.
  assert (Hf : forall a, shape a = d -> length (data a) = fold_right Nat.mul 1 (shape a) ->
               getslices a (map (fun '(d0, f) => (d0, f)) (combine d (map Z.to_nat (repeat 1%Z (length d)))))
               = inr a).
  { intros a Ha Hl. rewrite combine_repeat_one, map_map.
    change (getslices a (map (fun n => (n, 1%nat)) d) = inr a).
    rewrite <- Ha. apply getslices_step_one, Hl. }
  assert (Hex : existsb (fun f => (f <=? 0)%Z) (repeat 1%Z (length d)) = false).
  { generalize (length d). intros n. induction n as [|n IH]; [reflexivity|]. simpl. exact IH. }
  destruct (mapValues_ok (fun v => getslices v (map (fun '(d0, f) => (d0, f))
                                   (combine d (map Z.to_nat (repeat 1%Z (length d))))))
              (rdd self) s) as (r' & s' & Em).
  { eapply Forall_impl; [|exact HF]. intros kv (a & Ea & Ha & Hl). exists a. split; [exact Ea|].
    exists a. apply Hf; assumption. }
  assert (Hv : Forall (fun kv => snd kv < length (heap s))%nat (rdd self)).
  { eapply Forall_impl; [|exact HF]. intros kv (a & Ea & _). apply nth_error_Some. congruence. }
  destruct (mapValues_inv _ _ _ _ _ Hv Em) as [Hext HF2].
  unfold subsample. cbv [bind]. rewrite Hd. simpl.
  rewrite Hex, repeat_length, Nat.ltb_irrefl. rewrite <- Hr in Em. rewrite Em.
  eexists; exists s'. split; [reflexivity|]. split.
  - simpl. f_equal. rewrite combine_repeat_one, map_map.
    rewrite (map_ext _ (fun n => n)) by (intros n; apply Nat.div_1_r). apply map_id.
  - split; [exact Hext|]. simpl.
    pose proof (Forall_Forall2 _ _ _ _ HF HF2) as HF3.
    eapply Forall2_impl; [|exact HF3].
    intros x y ((a & Ea & Ha & Hl) & Hxy & a' & b & Ea' & Hab & Hb). split; [exact Hxy|].
    rewrite Ea in Ea'. inversion Ea'; subst a'. rewrite Hf in Hab by assumption.
    inversion Hab; subst b. rewrite Hb, Ea. reflexivity.
Qed.

Lemma existsb_nonpos_false : forall l, Forall (fun f => 0 < f)%Z l -> existsb (fun f => (f <=? 0)%Z) l = false.
Proof.
  intros l H. induction H as [|x l Hx Hl IH]; [reflexivity|]. simpl. rewrite IH.
  replace (x <=? 0)%Z with false by (symmetry; apply Z.leb_gt; exact Hx). reflexivity.
Qed.

Lemma combine_app_r : forall {A B} (l : list A) (l1 l2 : list B),
  length l <= length l1 -> combine l (l1 ++ l2) = combine l l1.
Proof.
  intros A B l. induction l as [|x l IH]; intros l1 l2 H; [reflexivity|].
  destruct l1 as [|y l1]; simpl in H; [lia|]. simpl. rewrite IH by lia. reflexivity.
Qed.

(** [subsample]'s checks: a factor [<= 0] raises [ValueError] (an int
    factor only when the rank is not 0), a sequence shorter than the rank
    raises [IndexError], and positive factors beyond the rank are
    ignored. *)
Theorem subsample_factor_checks : forall self s d self1 s1,
  get_dims self s = inr ((d, self1), s1) ->
  (forall sfs, existsb (fun f => (f <=? 0)%Z) sfs = true ->
     subsample self (SFSeq sfs) s = inl ValueError) /\
  (forall sf, (sf <= 0)%Z -> d <> [] -> subsample self (SFScalar sf) s = inl ValueError) /\
  (forall sfs, Forall (fun f => 0 < f)%Z sfs -> (length sfs < length d)%nat ->
     subsample self (SFSeq sfs) s = inl IndexError) /\
  (forall sfs extra, length sfs = length d -> Forall (fun f => 0 < f)%Z extra ->
     subsample self (SFSeq (sfs ++ extra)) s = subsample self (SFSeq sfs) s).
Proof.
  intros self s d self1 s1 Hd.
  destruct (get_dims_inv _ _ _ _ _ Hd) as (-> & _ & _ & _).
  unfold subsample. cbv [bind]. rewrite Hd. split; [|split; [|split]].
  - intros sfs H. rewrite H. reflexivity.
  - intros sf Hsf Hne. destruct d as [|n d]; [contradiction|]. simpl.
    replace (sf <=? 0)%Z with true by (symmetry; apply Z.leb_le; exact Hsf). reflexivity.
  - intros sfs Hpos Hlen. rewrite existsb_nonpos_false by exact Hpos.
    apply Nat.ltb_lt in Hlen. rewrite Hlen. reflexivity.
  - intros sfs extra Hlen Hpos.
    rewrite existsb_app, (existsb_nonpos_false extra Hpos), orb_false_r.
    destruct (existsb (fun f => (f <=? 0)%Z) sfs); [reflexivity|].
    rewrite length_app, Hlen.
    replace (length d + length extra <? length d) with false by (symmetry; apply Nat.ltb_ge; lia).
    rewrite Nat.ltb_irrefl, map_app, combine_app_r by (rewrite length_map; lia). reflexivity.
Qed.

(** [gaussianFilter] and [medianFilter] on a non-empty collection whose
    images have neither 2 nor 3 axes raise [NameError]: the nested
    [filter] was never defined. *)
Theorem filters_other_ranks_raise_NameError :
  forall gaussian_filter median_filter sigma self s d self1 s1 kv rest,
  get_dims self s = inr ((d, self1), s1) ->
  length d <> 2%nat -> length d <> 3%nat -> rdd self = kv :: rest ->
  gaussianFilter gaussian_filter self sigma s = inl NameError /\
  medianFilter median_filter self sigma s = inl NameError.
Proof.
  intros gf mf sigma self s d self1 s1 [k r] rest Hd H2 H3 Hr.
  destruct (get_dims_inv _ _ _ _ _ Hd) as (-> & Hr1 & _ & _).
  assert (Hf : forall f, filter_for f d = None).
  { intros f. unfold filter_for. apply Nat.eqb_neq in H2, H3. rewrite H2, H3. reflexivity. }
  unfold gaussianFilter, medianFilter. cbv [bind]. rewrite Hd, !Hf, Hr1, Hr.
  split; reflexivity.
Qed.

(** An empty collection without given [dims] cannot compute them: reading
    [dims] raises [ValueError] ([first()] of an empty RDD), and so does
    every operation that reads them first. *)
Theorem empty_collection_without_dims_raises_ValueError : forall self s,
  rdd self = [] -> _dims self = None ->
  get_dims self s = inl ValueError /\
  (forall axis, maxProjection self axis s = inl ValueError /\
                maxminProjection self axis s = inl ValueError) /\
  (forall sf, subsample self sf s = inl ValueError) /\
  (forall g m sigma, gaussianFilter g self sigma s = inl ValueError /\
                     medianFilter m self sigma s = inl ValueError) /\
  (forall bottom top inclusive, planes self bottom top inclusive s = inl ValueError) /\
  (forall Buf CW PW imsave_png newCW writeCF newPW writerFcn od fp ow ctd,
     @exportAsPngs Buf CW PW imsave_png newCW writeCF newPW writerFcn self od fp ow ctd s
     = inl ValueError).
Proof.
  intros self s Hr Hd.
  assert (E : get_dims self s = inl ValueError).
  { unfold get_dims. rewrite Hd. cbv [bind populateParamsFromFirstRecord rdd_first].
    rewrite Hr. reflexivity. }
  split; [exact E|].
  repeat split; intros;
    cbv [maxProjection maxminProjection subsample gaussianFilter medianFilter planes
         exportAsPngs bind]; rewrite E; reflexivity.
Qed.



Lemma py_getitem_map : forall {A B} (f : A -> B) l i,
  py_getitem (map f l) i = match py_getitem l i with inl e => inl e | inr x => inr (f x) end.
Proof.
  intros A B f l i. unfold py_getitem. rewrite length_map.
  destruct (normalize_axis i (length l)) as [n|]; [|reflexivity].
  rewrite nth_error_map. destruct (nth_error l n); reflexivity.
Qed.


Ltac red_H Gc H := cbv beta iota in H; rewrite ?Gc in H; cbv beta iota in H.

Lemma planes_inv : forall self bottom top inclusive s out self' s',
  planes self bottom top inclusive s = inr ((out, self'), s') ->
  let zr := planes_zrange bottom top inclusive in
  exists d d2 x0 x1, get_dims self s = inr ((d, self'), s) /\ rdd self' = rdd self /\
    length d <> 2%nat /\ py_getitem d 2 = inr d2 /\ d2 <> 1%nat /\
    zr <> [] /\ (0 <= list_min zr)%Z /\ (list_max zr <= Z.of_nat d2 - 1)%Z /\
    py_getitem d 0 = inr x0 /\ py_getitem d 1 = inr x1 /\
    _dims out = Some (if Nat.ltb (length zr) 2 then [x0; x1] else [x0; x1; length zr]) /\
    mapValues (fun v => match take_axis2 v zr with
                        | inl e => inl e
                        | inr a => inr (squeeze a)
                        end) (rdd self) s = inr (rdd out, s').
Proof.
  intros self bottom top inclusive s out self' s' H zr.
  unfold planes, dims_item in H. cbv [bind lift ret raise] in H.
  destruct (get_dims self s) as [e|[[d self1] s1]] eqn:Ed; [discriminate|].
  destruct (get_dims_inv _ _ _ _ _ Ed) as (-> & Hr & Hc & _).
  assert (Gc : forall s0, get_dims self1 s0 = inr ((d, self1), s0))
    by (intros; apply get_dims_cached; exact Hc).
  destruct (Nat.eqb (length d) 2) eqn:E2; red_H Gc H; [discriminate|].
  destruct (py_getitem d 2) as [e|d2] eqn:G2; red_H Gc H; [discriminate|].
  destruct (Nat.eqb d2 1) eqn:E1; red_H Gc H; [discriminate|].
  fold (planes_zrange bottom top inclusive) in H. fold zr in H.
  destruct (Nat.eqb (length zr) 0) eqn:E0; red_H Gc H; [discriminate|].
  unfold dims_min, dims_max in H. rewrite py_getitem_map, G2 in H. red_H Gc H.
  destruct (list_min zr <? 0)%Z eqn:Emin; red_H Gc H; [discriminate|].
  unfold dims_min, dims_max in H. rewrite py_getitem_map, G2 in H. red_H Gc H.
  destruct (Z.of_nat d2 - 1 <? list_max zr)%Z eqn:Emax; red_H Gc H; [discriminate|].
  destruct (py_getitem d 0) as [e|x0] eqn:G0; red_H Gc H; [discriminate|].
  destruct (py_getitem d 1) as [e|x1] eqn:G1; red_H Gc H; [discriminate|].
  match type of H with
  | match ?m with _ => _ end = _ => destruct m as [e|[r s2]] eqn:Em; [discriminate|]
  end.
  inversion H; subst. exists d, d2, x0, x1.
  apply Nat.eqb_neq in E2, E1. apply Z.ltb_ge in Emin, Emax.
  repeat split; auto.
  - intros Hz. rewrite Hz in E0. discriminate.
  - rewrite <- Hr. exact Em.
Qed.





Lemma arange_length : forall lo hi, length (arange lo hi) = Z.to_nat (hi - lo).
Proof. intros. unfold arange. rewrite length_map, length_seq. reflexivity. Qed.

Lemma In_arange : forall lo hi z, In z (arange lo hi) <-> (lo <= z < hi)%Z.
Proof.
  intros lo hi z. unfold arange. rewrite in_map_iff. split.
  - intros (i & <- & Hi). apply in_seq in Hi. lia.
  - intros Hz. exists (Z.to_nat (z - lo)). split; [lia|]. apply in_seq. lia.
Qed.

Lemma arange_cons : forall lo hi, (lo < hi)%Z -> arange lo hi = lo :: arange (lo + 1) hi.
Proof.
  intros lo hi H. unfold arange.
  replace (Z.to_nat (hi - lo)) with (S (Z.to_nat (hi - (lo + 1)))) by lia.
  simpl. f_equal; [lia|]. rewrite <- seq_shift, map_map. apply map_ext. intros. lia.
Qed.

Lemma arange_nth : forall lo hi m, (m < Z.to_nat (hi - lo))%nat ->
  nth m (arange lo hi) 0%Z = (lo + Z.of_nat m)%Z.
Proof.
  intros lo hi m H. unfold arange.
  assert (E := map_nth (fun i : nat => (lo + Z.of_nat i)%Z) (seq 0 (Z.to_nat (hi - lo))) 0%nat m).
  cbv beta in E. rewrite seq_nth in E by exact H. simpl in E. rewrite <- E.
  apply nth_indep. rewrite length_map, length_seq. exact H.
Qed.

Lemma fold_left_min_first : forall l x,
  (forall y, In y l -> x <= y)%Z -> fold_left Z.min l x = x.
Proof.
  induction l as [|y l IH]; intros x H; [reflexivity|]. simpl.
  rewrite Z.min_l by (apply H; left; reflexivity). apply IH. intros z Hz. apply H. right. exact Hz.
Qed.

Lemma fold_left_max_bounds : forall l x,
  (x <= fold_left Z.max l x)%Z /\ (forall y, In y l -> y <= fold_left Z.max l x)%Z /\
  (fold_left Z.max l x = x \/ In (fold_left Z.max l x) l).
Proof.
  induction l as [|y l IH]; intros x; simpl.
  - split; [lia|]. split; [tauto|]. left; reflexivity.
  - destruct (IH (Z.max x y)) as (H1 & H2 & H3). split; [lia|]. split.
    + intros z [<-|Hz]; [lia|]. apply H2, Hz.
    + destruct H3 as [H3|H3]; [|right; right; exact H3].
      rewrite H3. destruct (Z.max_spec x y) as [[_ E]|[_ E]]; rewrite E; [right; left|left]; reflexivity.
Qed.

Lemma arange_min_max : forall lo hi, (lo < hi)%Z ->
  list_min (arange lo hi) = lo /\ list_max (arange lo hi) = (hi - 1)%Z.
Proof.
  intros lo hi H. rewrite arange_cons by exact H. unfold list_min, list_max. split.
  - apply fold_left_min_first. intros y Hy. apply In_arange in Hy. lia.
  - destruct (fold_left_max_bounds (arange (lo + 1) hi) lo) as (H1 & H2 & H3).
    destruct (Z.eq_dec lo (hi - 1)) as [E|E].
    + destruct H3 as [H3|H3]; [lia|]. apply In_arange in H3. lia.
    + assert (hi - 1 <= fold_left Z.max (arange (lo + 1) hi) lo)%Z
        by (apply H2, In_arange; lia).
      destruct H3 as [H3|H3]; [lia|]. apply In_arange in H3. lia.
Qed.

Lemma planes_zrange_arange : forall bottom top inclusive,
  planes_zrange bottom top inclusive
  = arange (planes_lo bottom inclusive) (planes_hi top inclusive + 1).
Proof.
  intros. unfold planes_zrange, planes_lo, planes_hi.
  destruct (is_True inclusive); [reflexivity|]. f_equal. lia.
Qed.

Lemma normalize_axis_nonneg : forall z n, (0 <= z)%Z ->
  normalize_axis z n = if (z <? Z.of_nat n)%Z then Some (Z.to_nat z) else None.
Proof.
  intros z n H. unfold normalize_axis.
  destruct (z <? Z.of_nat n)%Z eqn:E; [apply Z.leb_le in H; rewrite H; reflexivity|].
  rewrite andb_false_r. destruct (z <? 0)%Z eqn:E2; [lia|]. rewrite andb_false_r. reflexivity.
Qed.

Lemma index_array_nonneg : forall zr n zs,
  Forall (fun z => 0 <= z)%Z zr -> index_array zr n = Some zs ->
  zs = map Z.to_nat zr /\ Forall (fun z => z < Z.of_nat n)%Z zr.
Proof.
  induction zr as [|z zr IH]; intros n zs Hp H; simpl in H.
  - inversion H; subst. split; [reflexivity|constructor].
  - apply Forall_cons_iff in Hp as [Hz Hp]. rewrite normalize_axis_nonneg in H by exact Hz.
    destruct (z <? Z.of_nat n)%Z eqn:E; [|discriminate].
    destruct (index_array zr n) as [is|] eqn:Ei; [|discriminate]. inversion H; subst.
    destruct (IH n is Hp Ei) as [-> Hlt]. split; [reflexivity|].
    constructor; [lia|exact Hlt].
Qed.

Lemma index_array_in_range : forall zr n,
  Forall (fun z => 0 <= z < Z.of_nat n)%Z zr -> index_array zr n = Some (map Z.to_nat zr).
Proof.
  induction zr as [|z zr IH]; intros n H; [reflexivity|].
  apply Forall_cons_iff in H as [Hz H]. simpl.
  rewrite normalize_axis_nonneg by lia. destruct (z <? Z.of_nat n)%Z eqn:E; [|lia].
  rewrite IH by exact H. reflexivity.
Qed.

Lemma In_indices_cons : forall n sh idx, In idx (indices (n :: sh)) ->
  exists i idx', idx = i :: idx' /\ (i < n)%nat /\ In idx' (indices sh).
Proof.
  intros n sh idx H. simpl in H. apply in_flat_map in H as (i & Hi & H).
  apply in_map_iff in H as (idx' & <- & H). apply in_seq in Hi. exists i, idx'. split; [reflexivity|]. split; [lia|exact H].
Qed.

Lemma py_getitem_of_nat : forall {A} (l : list A) i,
  py_getitem l (Z.of_nat i) = match nth_error l i with Some x => inr x | None => inl IndexError end.
Proof.
  intros A l i. unfold py_getitem. rewrite normalize_axis_nonneg by lia.
  destruct (Z.of_nat i <? Z.of_nat (length l))%Z eqn:E.
  - rewrite Nat2Z.id. reflexivity.
  - destruct (nth_error l i) eqn:N; [|reflexivity].
    apply Z.ltb_ge in E. assert (i < length l)%nat by (apply nth_error_Some; congruence). lia.
Qed.

Lemma planes_range_facts : forall bottom top inclusive d2,
  planes_zrange bottom top inclusive <> [] ->
  (0 <= list_min (planes_zrange bottom top inclusive))%Z ->
  (list_max (planes_zrange bottom top inclusive) <= Z.of_nat d2 - 1)%Z ->
  (0 <= planes_lo bottom inclusive <= planes_hi top inclusive)%Z /\
  (planes_hi top inclusive < Z.of_nat d2)%Z.
Proof.
  intros bottom top inclusive d2. rewrite planes_zrange_arange.
  set (lo := planes_lo bottom inclusive). set (hi := planes_hi top inclusive).
  intros Hne Hmin Hmax.
  destruct (Z_lt_le_dec hi lo) as [Hlt|Hle].
  - exfalso. apply Hne. unfold arange. replace (Z.to_nat (hi + 1 - lo)) with 0%nat by lia.
    reflexivity.
  - destruct (arange_min_max lo (hi + 1)) as [E1 E2]; [lia|]. rewrite E1 in Hmin.
    rewrite E2 in Hmax. lia.
Qed.

Lemma take_axis2_arange : forall a lo hi b,
  (0 <= lo <= hi)%Z ->
  take_axis2 a (arange lo (hi + 1)) = inr b ->
  exists s0 s1 s2 rest, shape a = s0 :: s1 :: s2 :: rest /\ (Z.to_nat hi < s2)%nat /\
    let k := Z.to_nat (hi - lo + 1) in
    shape b = s0 :: s1 :: k :: rest /\
    data b = map (fun idx => match idx with
                             | i :: j :: m :: r => get a (i :: j :: (Z.to_nat lo + m)%nat :: r)
                             | _ => 0%Z
                             end) (indices (s0 :: s1 :: k :: rest)).
Proof.
  intros a lo hi b Hlh H. unfold take_axis2 in H.
  destruct (shape a) as [|s0 [|s1 [|s2 rest]]] eqn:Sa; try discriminate.
  destruct (index_array (arange lo (hi + 1)) s2) as [zs|] eqn:Ei; [|discriminate].
  inversion H; subst b; clear H.
  assert (Hnn : Forall (fun z => 0 <= z)%Z (arange lo (hi + 1))).
  { apply Forall_forall. intros z Hz. apply In_arange in Hz. lia. }
  destruct (index_array_nonneg _ _ _ Hnn Ei) as [Ezs Hlt].
  assert (Hk : length zs = Z.to_nat (hi - lo + 1)).
  { rewrite Ezs, length_map, arange_length. f_equal. lia. }
  exists s0, s1, s2, rest. split; [reflexivity|]. split.
  { rewrite Forall_forall in Hlt. assert (Hh : In hi (arange lo (hi + 1))) by (apply In_arange; lia).
    specialize (Hlt hi Hh). lia. }
  cbn zeta. rewrite Hk. split; [reflexivity|]. simpl data.
  apply map_ext_in. intros idx Hidx.
  apply In_indices_cons in Hidx as (i & idx1 & -> & _ & Hidx).
  apply In_indices_cons in Hidx as (j & idx2 & -> & _ & Hidx).
  apply In_indices_cons in Hidx as (m & r & -> & Hm & _).
  f_equal. f_equal. f_equal. rewrite Ezs.
  rewrite nth_indep with (d' := Z.to_nat 0%Z) by (rewrite length_map, arange_length; lia).
  rewrite map_nth, arange_nth by lia. f_equal. lia.
Qed.

Lemma py_getitem_small : forall (d : list nat) i x,
  py_getitem d (Z.of_nat i) = inr x -> nth_error d i = Some x.
Proof.
  intros d i x H. rewrite py_getitem_of_nat in H.
  destruct (nth_error d i); inversion H; reflexivity.
Qed.

(** [planes] on success: the images have at least 3 axes, the selected
    range [lo..hi] ([bottom..top] when [inclusive is True], else
    [bottom+1..top-1]) is non-empty and lies within the cached third axis,
    the new [dims] are the first two axes followed by the number of planes
    when there are at least 2, and each record keeps its key and holds a
    new array made of planes [lo..hi] of its source array in order, with
    the axes of length 1 removed. *)
Theorem planes_selects_planes : forall self bottom top inclusive s out self' s',
  records_valid self s = true ->
  planes self bottom top inclusive s = inr ((out, self'), s') ->
  let lo := planes_lo bottom inclusive in
  let hi := planes_hi top inclusive in
  let k := Z.to_nat (hi - lo + 1) in
  exists d, get_dims self s = inr ((d, self'), s) /\ (3 <= length d)%nat /\
    (0 <= lo <= hi)%Z /\ (hi < Z.of_nat (nth 2 d 0%nat))%Z /\
    _dims out = Some (if Nat.ltb k 2 then [nth 0 d 0%nat; nth 1 d 0%nat]
                      else [nth 0 d 0%nat; nth 1 d 0%nat; k]) /\
    Forall2 (fun x y => fst x = fst y /\
      exists a b s0 s1 s2 rest,
        nth_error (heap s) (snd x) = Some a /\ nth_error (heap s') (snd y) = Some b /\
        shape a = s0 :: s1 :: s2 :: rest /\ (Z.to_nat hi < s2)%nat /\
        shape b = filter (fun n => negb (Nat.eqb n 1)) (s0 :: s1 :: k :: rest) /\
        data b = map (fun idx => match idx with
                                 | i :: j :: m :: r => get a (i :: j :: (Z.to_nat lo + m)%nat :: r)
                                 | _ => 0%Z
                                 end) (indices (s0 :: s1 :: k :: rest)))
      (rdd self) (rdd out).
Proof.
  intros self bottom top inclusive s out self' s' Hv H lo hi k.
  destruct (planes_inv _ _ _ _ _ _ _ _ H)
    as (d & d2 & x0 & x1 & Ed & Hr & H2 & G2 & H1 & Hne & Hmin & Hmax & G0 & G1 & Hdims & Hm).
  destruct (planes_range_facts _ _ _ _ Hne Hmin Hmax) as [Hlh Hhi]. fold lo hi in Hlh, Hhi.
  apply (py_getitem_small d 2) in G2. apply (py_getitem_small d 0) in G0.
  apply (py_getitem_small d 1) in G1.
  assert (Hlen : (3 <= length d)%nat) by (assert (2 < length d)%nat by (apply nth_error_Some; congruence); lia).
  rewrite planes_zrange_arange in Hdims, Hm. fold lo hi in Hdims, Hm.
  rewrite arange_length in Hdims. replace (Z.to_nat (hi + 1 - lo)) with k in Hdims by (unfold k; f_equal; lia).
  exists d. split; [exact Ed|]. split; [exact Hlen|]. split; [exact Hlh|].
  split; [rewrite (nth_error_nth d 2 0%nat G2); exact Hhi|].
  split.
  { rewrite Hdims, (nth_error_nth d 0 0%nat G0), (nth_error_nth d 1 0%nat G1). reflexivity. }
  apply records_valid_Forall in Hv.
  destruct (mapValues_inv _ _ _ _ _ Hv Hm) as [_ HF].
  eapply Forall2_impl; [|exact HF]. cbv beta.
  intros x y (Hxy & a & b & Ea & Eb & Eb').
  split; [exact Hxy|].
  destruct (take_axis2 a (arange lo (hi + 1))) as [e|b0] eqn:Et; [discriminate|].
  inversion Eb; subst b.
  destruct (take_axis2_arange _ _ _ _ Hlh Et) as (s0 & s1 & s2 & rest & Sa & Hs2 & Sb & Db).
  exists a, (squeeze b0), s0, s1, s2, rest.
  split; [exact Ea|]. split; [exact Eb'|]. split; [exact Sa|]. split; [exact Hs2|].
  split; [unfold squeeze; simpl; rewrite Sb; reflexivity|].
  unfold squeeze. simpl. exact Db.
Qed.

Ltac red_G Gc := cbv beta iota; rewrite ?Gc; cbv beta iota.

(** When [planes] fails: with fewer than 2 cached axes it raises
    [IndexError], with 2 it raises [Exception]; with 3 or more, when every
    record has the cached shape, it raises [Exception] exactly when the
    third axis has length 1, the range [lo..hi] is empty, [lo < 0] or
    [hi] is not below the third axis's length, and succeeds otherwise. *)
Theorem planes_refuses_exactly : forall self bottom top inclusive s d self1 s1,
  get_dims self s = inr ((d, self1), s1) ->
  let lo := planes_lo bottom inclusive in
  let hi := planes_hi top inclusive in
  ((length d < 2)%nat -> planes self bottom top inclusive s = inl IndexError) /\
  (length d = 2%nat -> planes self bottom top inclusive s = inl Exception_) /\
  ((3 <= length d)%nat -> records_have_shape self s d = true ->
     if (Nat.eqb (nth 2 d 0%nat) 1 || (hi <? lo) || (lo <? 0)
         || (Z.of_nat (nth 2 d 0%nat) <=? hi))%Z
     then planes self bottom top inclusive s = inl Exception_
     else exists r, planes self bottom top inclusive s = inr r).
Proof.
  intros self bottom top inclusive s d self1 s1 Ed lo hi.
  destruct (get_dims_inv _ _ _ _ _ Ed) as (-> & Hr & Hc & _).
  assert (Gc : forall s0, get_dims self1 s0 = inr ((d, self1), s0))
    by (intros; apply get_dims_cached; exact Hc).
  unfold planes, dims_item. cbv [bind lift ret raise]. rewrite Ed.
  split; [|split].
  - intros Hl. assert (E2 : Nat.eqb (length d) 2 = false) by (apply Nat.eqb_neq; lia).
    rewrite E2. red_G Gc.
    rewrite (py_getitem_of_nat _ 2).
    replace (nth_error d 2) with (@None nat) by (symmetry; apply nth_error_None; lia).
    reflexivity.
  - intros Hl. rewrite Hl. reflexivity.
  - intros Hl Hsh. assert (E2 : Nat.eqb (length d) 2 = false) by (apply Nat.eqb_neq; lia).
    rewrite E2. red_G Gc.
    rewrite (py_getitem_of_nat _ 2).
    destruct d as [|x0 [|x1 [|d2 rest]]]; simpl in Hl; try lia.
    cbn [nth_error nth]. red_G Gc.
    destruct (Nat.eqb d2 1) eqn:E1; [reflexivity|]. cbn [orb].
    fold (planes_zrange bottom top inclusive). rewrite planes_zrange_arange. fold lo hi.
    rewrite arange_length.
    destruct (hi <? lo)%Z eqn:Elh.
    { apply Z.ltb_lt in Elh. replace (Z.to_nat (hi + 1 - lo)) with 0%nat by lia. reflexivity. }
    apply Z.ltb_ge in Elh. cbn [orb].
    replace (Nat.eqb (Z.to_nat (hi + 1 - lo)) 0) with false by (symmetry; apply Nat.eqb_neq; lia).
    red_G Gc. unfold dims_min, dims_max.
    rewrite py_getitem_map. rewrite (py_getitem_of_nat _ 2).
    cbn [nth_error]. red_G Gc.
    destruct (arange_min_max lo (hi + 1)) as [Emin Emax]; [lia|]. rewrite Emin.
    destruct (lo <? 0)%Z eqn:Elo; [reflexivity|]. apply Z.ltb_ge in Elo. cbn [orb].
    red_G Gc. rewrite py_getitem_map. rewrite (py_getitem_of_nat _ 2).
    cbn [nth_error]. red_G Gc. rewrite Emax.
    destruct (Z.of_nat d2 <=? hi)%Z eqn:Ehi.
    { apply Z.leb_le in Ehi. replace (Z.of_nat d2 - 1 <? hi + 1 - 1)%Z with true
        by (symmetry; apply Z.ltb_lt; lia). reflexivity. }
    apply Z.leb_gt in Ehi.
    replace (Z.of_nat d2 - 1 <? hi + 1 - 1)%Z with false by (symmetry; apply Z.ltb_ge; lia).
    red_G Gc. rewrite (py_getitem_of_nat _ 0). cbn [nth_error].
    red_G Gc. rewrite (py_getitem_of_nat _ 1). cbn [nth_error].
    red_G Gc. rewrite Hr.
    destruct (mapValues_ok (fun v => match take_axis2 v (arange lo (hi + 1)) with
                                     | inl e => inl e
                                     | inr a => inr (squeeze a)
                                     end) (rdd self) s) as (r' & s' & Em).
    { apply records_have_shape_Forall in Hsh. eapply Forall_impl; [|exact Hsh].
      intros kv (a & Ea & Sa & _). exists a. split; [exact Ea|].
      unfold take_axis2. rewrite Sa.
      rewrite index_array_in_range.
      - eexists. reflexivity.
      - apply Forall_forall. intros z Hz. apply In_arange in Hz. lia. }
    rewrite Em. eexists. reflexivity.
Qed.

(** [exportAsPngs] raises [ValueError] unless the images are 2-D. For 2-D
    images, records are keyed by tuples, as [_check_type] requires, and
    [int(key)] raises [TypeError] on a tuple. So on a non-empty collection
    the outcome is the writer constructor's error if it fails, and
    [TypeError] otherwise, whichever writer is chosen. *)
Theorem exportAsPngs_refuses_rank_and_tuple_keys :
  forall Buf CW PW imsave_png newCW writeCF newPW writerFcn
         self outputdirname fileprefix overwrite collectToDriver s d self1 s1,
  get_dims self s = inr ((d, self1), s1) ->
  (length d <> 2%nat ->
     @exportAsPngs Buf CW PW imsave_png newCW writeCF newPW writerFcn
       self outputdirname fileprefix overwrite collectToDriver s = inl ValueError) /\
  (length d = 2%nat -> forall k r rest a,
     rdd self = (k, r) :: rest -> nth_error (heap s) r = Some a ->
     @exportAsPngs Buf CW PW imsave_png newCW writeCF newPW writerFcn
       self outputdirname fileprefix overwrite collectToDriver s
     = if collectToDriver
       then match newCW outputdirname overwrite with inl e => inl e | inr _ => inl TypeError end
       else match newPW outputdirname overwrite with inl e => inl e | inr _ => inl TypeError end).
Proof.
  intros Buf CW PW imsave_png newCW writeCF newPW writerFcn self od fp ow ctd s d self1 s1 Ed.
  destruct (get_dims_inv _ _ _ _ _ Ed) as (-> & Hr & _ & _).
  unfold exportAsPngs. cbv [bind lift ret raise]. rewrite Ed. split.
  - intros H2. apply Nat.eqb_neq in H2. rewrite H2. reflexivity.
  - intros H2 k r rest a Hk Ha. rewrite H2. cbn [Nat.eqb negb]. rewrite Hr, Hk.
    destruct ctd.
    + destruct (newCW od ow) as [e|w]; [reflexivity|].
      cbn [mapM]. cbv [bind deref lift ret]. cbn [snd fst]. rewrite Ha. reflexivity.
    + destruct (newPW od ow) as [e|w]; [reflexivity|].
      cbn [mapM]. cbv [bind deref lift ret]. cbn [snd fst]. rewrite Ha. reflexivity.
Qed.

Lemma digits_aux_fuel : forall f1 f2 n, (n < f1)%nat -> (n < f2)%nat ->
  digits_aux f1 n = digits_aux f2 n.
Proof.
  induction f1 as [|f1 IH]; intros f2 n H1 H2; [lia|].
  destruct f2 as [|f2]; [lia|]. cbn [digits_aux]. destruct (n <? 10) eqn:E; [reflexivity|].
  apply Nat.ltb_ge in E. f_equal. apply IH; apply Nat.Div0.div_lt_upper_bound; lia.
Qed.

Lemma decimal_digits_eq : forall n,
  decimal_digits n = if n <? 10 then [n] else decimal_digits (n / 10) ++ [n mod 10].
Proof.
  intros n. unfold decimal_digits at 1. cbn [digits_aux]. destruct (n <? 10) eqn:E; [reflexivity|].
  apply Nat.ltb_ge in E. f_equal.
  assert (H1 : (n / 10 < n)%nat) by (apply Nat.Div0.div_lt_upper_bound; lia).
  exact (digits_aux_fuel n (S (n / 10)) (n / 10) H1 (Nat.lt_succ_diag_r _)).
Qed.

Lemma decimal_digits_small : forall n, Forall (fun d => d < 10)%nat (decimal_digits n).
Proof.
  intros n. induction n as [n IH] using (well_founded_induction lt_wf).
  rewrite decimal_digits_eq. destruct (n <? 10) eqn:E.
  - apply Nat.ltb_lt in E. constructor; [exact E|constructor].
  - apply Nat.ltb_ge in E. apply Forall_app. split.
    + apply IH. apply Nat.div_lt; lia.
    + constructor; [apply Nat.mod_upper_bound; lia|constructor].
Qed.

Lemma digits_value_snoc : forall l d, digits_value (l ++ [d]) = digits_value l * 10 + d.
Proof.
  induction l as [|x l IH]; intros d; simpl; [lia|].
  rewrite IH, length_app. simpl. rewrite Nat.add_1_r, Nat.pow_succ_r'. lia.
Qed.

Lemma decimal_digits_value : forall n, digits_value (decimal_digits n) = n.
Proof.
  intros n. induction n as [n IH] using (well_founded_induction lt_wf).
  rewrite decimal_digits_eq. destruct (n <? 10) eqn:E.
  - simpl. lia.
  - apply Nat.ltb_ge in E. rewrite digits_value_snoc, IH by (apply Nat.div_lt; lia).
    pose proof (Nat.div_mod n 10). lia.
Qed.

Lemma decimal_digits_length : forall w n, (n < 10 ^ S w)%nat -> (length (decimal_digits n) <= S w)%nat.
Proof.
  induction w as [|w IH]; intros n H; rewrite decimal_digits_eq;
    destruct (n <? 10) eqn:E; try (simpl; lia).
  - apply Nat.ltb_ge in E. simpl in H. lia.
  - apply Nat.ltb_ge in E. rewrite length_app. cbn [length].
    assert (length (decimal_digits (n / 10)) <= S w)%nat; [|lia].
    apply IH. apply Nat.Div0.div_lt_upper_bound. rewrite <- Nat.pow_succ_r'. exact H.
Qed.

Lemma digits_value_zeros : forall k l, digits_value (repeat 0%nat k ++ l) = digits_value l.
Proof. induction k as [|k IH]; intros l; [reflexivity|]. simpl. exact (IH l). Qed.

Lemma digits_value_bound : forall l, Forall (fun d => d < 10)%nat l ->
  (digits_value l < 10 ^ length l)%nat.
Proof.
  induction l as [|d l IH]; intros H; simpl; [lia|].
  apply Forall_cons_iff in H as [Hd H]. specialize (IH H).
  assert (d * 10 ^ length l <= 9 * 10 ^ length l)%nat by (apply Nat.mul_le_mono_r; lia). lia.
Qed.

Lemma zero_pad_small : forall w l, Forall (fun d => d < 10)%nat l ->
  Forall (fun d => d < 10)%nat (zero_pad w l).
Proof.
  intros w l H. unfold zero_pad. apply Forall_app. split; [|exact H].
  apply Forall_forall. intros x Hx. apply repeat_spec in Hx. lia.
Qed.

Lemma digit_char_compare : forall a b, (a < 10)%nat -> (b < 10)%nat ->
  Ascii.compare (digit_char a) (digit_char b) = Nat.compare a b.
Proof.
  intros a b Ha Hb.
  do 10 (destruct a as [|a]; [do 10 (destruct b as [|b]; [reflexivity|]); lia|]). lia.
Qed.

Lemma place_value_lt : forall d1 d2 v1 v2 P, (d1 < d2)%nat -> (v1 < P)%nat ->
  (d1 * P + v1 < d2 * P + v2)%nat.
Proof.
  intros d1 d2 v1 v2 P H1 H2.
  assert (S d1 * P <= d2 * P)%nat by (apply Nat.mul_le_mono_r; exact H1).
  simpl in H. lia.
Qed.

Lemma string_compare_digits : forall l1 l2,
  length l1 = length l2 -> Forall (fun d => d < 10)%nat l1 -> Forall (fun d => d < 10)%nat l2 ->
  String.compare (string_of_list_ascii (map digit_char l1)) (string_of_list_ascii (map digit_char l2))
  = Nat.compare (digits_value l1) (digits_value l2).
Proof.
  induction l1 as [|d1 l1 IH]; intros [|d2 l2] Hl H1 H2; try discriminate; [reflexivity|].
  apply Forall_cons_iff in H1 as [Hd1 H1]. apply Forall_cons_iff in H2 as [Hd2 H2].
  injection Hl as Hl. cbn [map string_of_list_ascii String.compare digits_value].
  rewrite digit_char_compare by assumption.
  pose proof (digits_value_bound l1 H1) as B1. pose proof (digits_value_bound l2 H2) as B2.
  rewrite Hl in B1 |- *. set (P := 10 ^ length l2) in *.
  destruct (Nat.compare_spec d1 d2) as [E|E|E].
  - subst d2. rewrite IH by assumption. symmetry.
    destruct (Nat.compare_spec (digits_value l1) (digits_value l2));
      [apply Nat.compare_eq_iff | apply Nat.compare_lt_iff | apply Nat.compare_gt_iff]; lia.
  - symmetry. apply Nat.compare_lt_iff. apply place_value_lt; assumption.
  - symmetry. apply Nat.compare_gt_iff. apply place_value_lt; assumption.
Qed.

Lemma list_ascii_of_string_app : forall s1 s2,
  list_ascii_of_string (s1 ++ s2) = list_ascii_of_string s1 ++ list_ascii_of_string s2.
Proof. induction s1 as [|c s1 IH]; intros s2; [reflexivity|]. simpl. rewrite IH. reflexivity. Qed.

Lemma ascii_compare_refl : forall c, Ascii.compare c c = Eq.
Proof. intros c. unfold Ascii.compare. apply N.compare_refl. Qed.

Lemma string_compare_prefix : forall p x y, String.compare (p ++ x) (p ++ y) = String.compare x y.
Proof. induction p as [|c p IH]; intros x y; [reflexivity|]. simpl. rewrite ascii_compare_refl. apply IH. Qed.

Lemma string_compare_app_same_length : forall x y u v, String.length x = String.length y ->
  String.compare (x ++ u) (y ++ v)
  = match String.compare x y with Eq => String.compare u v | c => c end.
Proof.
  induction x as [|c x IH]; intros [|c' y] u v H; try discriminate; [reflexivity|].
  injection H as H. simpl. destruct (Ascii.compare c c'); [apply IH, H|reflexivity|reflexivity].
Qed.

Lemma length_string_of_list_ascii : forall l, String.length (string_of_list_ascii l) = length l.
Proof. induction l as [|c l IH]; [reflexivity|]. simpl. rewrite IH. reflexivity. Qed.

Lemma string_length_append : forall s1 s2,
  String.length (s1 ++ s2) = (String.length s1 + String.length s2)%nat.
Proof. induction s1 as [|c s1 IH]; intros s2; [reflexivity|]. simpl. rewrite IH. reflexivity. Qed.

Lemma length_zero_pad : forall w l, (length l <= w)%nat -> length (zero_pad w l) = w.
Proof. intros w l H. unfold zero_pad. rewrite length_app, repeat_length. lia. Qed.

Lemma zero_pad_value : forall w n, digits_value (zero_pad w (decimal_digits n)) = n.
Proof. intros w n. unfold zero_pad. rewrite digits_value_zeros. apply decimal_digits_value. Qed.

Lemma format_05d_small : forall k, (0 <= k < 100000)%Z ->
  format_05d k = string_of_list_ascii (map digit_char (zero_pad 5 (decimal_digits (Z.to_nat k)))) /\
  length (zero_pad 5 (decimal_digits (Z.to_nat k))) = 5%nat.
Proof.
  intros k Hk. unfold format_05d. destruct (k <? 0)%Z eqn:E; [lia|]. split; [reflexivity|].
  apply length_zero_pad. apply (decimal_digits_length 4).
  apply Nat2Z.inj_lt. rewrite Nat2Z.inj_pow, Z2Nat.id by lia.
  change (Z.of_nat 10 ^ Z.of_nat 5)%Z with 100000%Z. lia.
Qed.

Lemma digit_char_inj : forall a b, (a < 10)%nat -> (b < 10)%nat -> digit_char a = digit_char b -> a = b.
Proof.
  intros a b Ha Hb E. apply Nat.compare_eq_iff. rewrite <- digit_char_compare by assumption.
  rewrite E. apply ascii_compare_refl.
Qed.

Lemma map_digit_char_inj : forall l1 l2, Forall (fun d => d < 10)%nat l1 -> Forall (fun d => d < 10)%nat l2 ->
  map digit_char l1 = map digit_char l2 -> l1 = l2.
Proof.
  induction l1 as [|d1 l1 IH]; intros [|d2 l2] H1 H2 E; try discriminate; [reflexivity|].
  apply Forall_cons_iff in H1 as [Hd1 H1]. apply Forall_cons_iff in H2 as [Hd2 H2].
  injection E as E1 E2. f_equal; [apply digit_char_inj; assumption|]. apply IH; assumption.
Qed.

Lemma digit_char_not_minus : forall d, (d < 10)%nat -> digit_char d <> "-"%char.
Proof. intros d Hd. do 10 (destruct d as [|d]; [discriminate|]). lia. Qed.

Lemma zero_pad_digits_cons : forall w n, exists d l, zero_pad w (decimal_digits n) = d :: l /\ (d < 10)%nat.
Proof.
  intros w n. pose proof (zero_pad_small w _ (decimal_digits_small n)) as H.
  destruct (zero_pad w (decimal_digits n)) as [|d l] eqn:E.
  - exfalso. unfold zero_pad in E. apply app_eq_nil in E as [_ E].
    rewrite decimal_digits_eq in E. destruct (n <? 10); [discriminate|].
    apply app_eq_nil in E as [_ E]. discriminate.
  - exists d, l. split; [reflexivity|]. inversion H; assumption.
Qed.

Lemma format_05d_inj : forall a b, format_05d a = format_05d b -> a = b.
Proof.
  intros a b E. unfold format_05d in E.
  apply (f_equal list_ascii_of_string) in E. rewrite !list_ascii_of_string_of_list_ascii in E.
  destruct (a <? 0)%Z eqn:Ea, (b <? 0)%Z eqn:Eb.
  - injection E as E. apply map_digit_char_inj in E; try apply zero_pad_small, decimal_digits_small.
    apply (f_equal digits_value) in E. rewrite !zero_pad_value in E. lia.
  - destruct (zero_pad_digits_cons 5 (Z.to_nat b)) as (d & l & Ed & Hd). rewrite Ed in E.
    injection E as E _. symmetry in E. apply digit_char_not_minus in E; [contradiction|exact Hd].
  - destruct (zero_pad_digits_cons 5 (Z.to_nat a)) as (d & l & Ed & Hd). rewrite Ed in E.
    injection E as E _. apply digit_char_not_minus in E; [contradiction|exact Hd].
  - apply map_digit_char_inj in E; try apply zero_pad_small, decimal_digits_small.
    apply (f_equal digits_value) in E. rewrite !zero_pad_value in E. lia.
Qed.

(** [toFilenameAndPngBuf] on int keys: two keys that give the same file
    name are equal, so no file overwrites another (negative keys
    included). *)
Theorem png_names_distinct_for_distinct_keys :
  forall Buf imsave_png fileprefix a b img1 img2 n1 n2 buf1 buf2,
  toFilenameAndPngBuf Buf imsave_png fileprefix (PyInt a, img1) = inr (n1, buf1) ->
  toFilenameAndPngBuf Buf imsave_png fileprefix (PyInt b, img2) = inr (n2, buf2) ->
  n1 = n2 -> a = b.
Proof.
  intros Buf imsave_png fp a b img1 img2 n1 n2 buf1 buf2 H1 H2 E.
  simpl in H1, H2. injection H1 as <- _. injection H2 as <- _.
  apply (f_equal list_ascii_of_string) in E. rewrite !list_ascii_of_string_app in E.
  apply app_inv_head in E. apply app_inv_tail in E.
  apply format_05d_inj. rewrite <- (string_of_list_ascii_of_string (format_05d a)), E.
  apply string_of_list_ascii_of_string.
Qed.

(** [toFilenameAndPngBuf] on int keys in [0, 100000): the file names
    compare as strings as the keys compare as numbers, and each is the
    prefix followed by 9 characters (5 digits and [.png]). *)
Theorem png_names_sort_like_keys :
  forall Buf imsave_png fileprefix a b img1 img2 n1 n2 buf1 buf2,
  (0 <= a < 100000)%Z -> (0 <= b < 100000)%Z ->
  toFilenameAndPngBuf Buf imsave_png fileprefix (PyInt a, img1) = inr (n1, buf1) ->
  toFilenameAndPngBuf Buf imsave_png fileprefix (PyInt b, img2) = inr (n2, buf2) ->
  String.compare n1 n2 = Z.compare a b /\
  String.length n1 = (String.length fileprefix + 9)%nat.
Proof.
  intros Buf imsave_png fp a b img1 img2 n1 n2 buf1 buf2 Ha Hb H1 H2.
  simpl in H1, H2. injection H1 as <- _. injection H2 as <- _.
  destruct (format_05d_small a Ha) as [Fa La]. destruct (format_05d_small b Hb) as [Fb Lb].
  rewrite Fa, Fb. split.
  - rewrite string_compare_prefix, string_compare_app_same_length
      by (rewrite !length_string_of_list_ascii, !length_map, La, Lb; reflexivity).
    rewrite string_compare_digits
      by (first [rewrite La, Lb; reflexivity | apply zero_pad_small, decimal_digits_small]).
    rewrite !zero_pad_value.
    destruct (String.compare ".png" ".png") eqn:Ep; [|discriminate|discriminate].
    rewrite <- Nat2Z.inj_compare, !Z2Nat.id by lia.
    destruct (Z.compare a b); reflexivity.
  - rewrite !string_length_append, length_string_of_list_ascii, length_map, La. reflexivity.
Qed.

Lemma maxProjection_takes_maximum_witness :
  exists out self' s', maxProjection one_image 0 (mk_St [array_4x4] []) = inr ((out, self'), s') /\
    _dims out = Some [4%nat].
Proof.
  destruct (maxProjection one_image 0 (mk_St [array_4x4] [])) as [e|[[out self'] s']] eqn:E.
  - vm_compute in E. discriminate E.
  - exists out, self', s'. split; [reflexivity|].
    destruct (maxProjection_takes_maximum one_image 0 (mk_St [array_4x4] []) out self' s' eq_refl E) as (d & nd & Ed & Hd & Ho & _).
    vm_compute in Ed. injection Ed; intros; subst. vm_compute in Hd. injection Hd; intros; subst.
    exact Ho.
Defined.


Lemma projections_negative_axis_witness :
  maxProjection one_image (-1) (mk_St [array_4x4] []) = maxProjection one_image 1 (mk_St [array_4x4] []) /\
  maxProjection one_image (-3) (mk_St [array_4x4] []) = inl IndexError.
Proof.
  destruct (get_dims one_image (mk_St [array_4x4] [])) as [e|[[d self1] s1]] eqn:E;
    [vm_compute in E; discriminate E|].
  pose proof (projections_negative_axis _ _ _ _ _ E) as [Hlow Hneg].
  vm_compute in E. injection E; intros; subst. split.
  - apply (Hneg eq_refl (-1)%Z). simpl. lia.
  - apply (Hlow (-3)%Z). simpl. lia.
Defined.

Lemma subsample_by_one_copies_arrays_witness :
  exists out self1 s', subsample one_image (SFScalar 1) (mk_St [array_4x4] []) = inr ((out, self1), s') /\
    _dims out = Some [4; 4]%nat.
Proof.
  destruct (get_dims one_image (mk_St [array_4x4] [])) as [e|[[d self1] s1]] eqn:E;
    [vm_compute in E; discriminate E|].
  pose proof (subsample_by_one_copies_arrays _ _ _ _ _ E) as H.
  vm_compute in E. injection E; intros; subst.
  destruct (H eq_refl) as (out & s' & H1 & H2 & _). exists out; eexists; exists s'. split; [exact H1|exact H2].
Defined.

Lemma subsample_factor_checks_witness :
  subsample one_image (SFSeq [2; 2; 3]%Z) (mk_St [array_4x4] [])
  = subsample one_image (SFSeq [2; 2]%Z) (mk_St [array_4x4] []) /\
  subsample one_image (SFSeq [2]%Z) (mk_St [array_4x4] []) = inl IndexError.
Proof.
  destruct (get_dims one_image (mk_St [array_4x4] [])) as [e|[[d self1] s1]] eqn:E;
    [vm_compute in E; discriminate E|].
  pose proof (subsample_factor_checks _ _ _ _ _ E) as (_ & _ & H3 & H4).
  vm_compute in E. injection E; intros; subst. split.
  - apply (H4 [2; 2]%Z [3%Z]); [reflexivity|repeat constructor].
  - apply H3; [repeat constructor|simpl; lia].
Defined.

Lemma filters_other_ranks_raise_NameError_witness :
  gaussianFilter (fun a _ => a) one_image 1 (mk_St [mk_ndarray [3]%nat "int64" [1; 2; 3]%Z] [])
  = inl NameError /\
  medianFilter (fun a _ => a) one_image 1 (mk_St [mk_ndarray [3]%nat "int64" [1; 2; 3]%Z] [])
  = inl NameError.
Proof.
  destruct (get_dims one_image (mk_St [mk_ndarray [3]%nat "int64" [1; 2; 3]%Z] []))
    as [e|[[d self1] s1]] eqn:E; [vm_compute in E; discriminate E|].
  pose proof (filters_other_ranks_raise_NameError (fun a _ => a) (fun a _ => a) 1%Z _ _ _ _ _ ([0%Z], 0%nat) [] E) as H.
  vm_compute in E. injection E; intros; subst.
  apply H; [discriminate|discriminate|reflexivity].
Defined.

Lemma empty_collection_without_dims_raises_ValueError_witness :
  planes (Images_init [] None None None) 0 1 (PyBool true) (mk_St [] []) = inl ValueError.
Proof.
  destruct (empty_collection_without_dims_raises_ValueError (Images_init [] None None None)
              (mk_St [] []) eq_refl eq_refl) as (_ & _ & _ & _ & H & _).
  apply H.
Defined.



Lemma planes_selects_planes_witness :
  exists out self' s',
    planes one_image 0 1 (PyBool true) (mk_St [array_2x2x3] []) = inr ((out, self'), s') /\
    _dims out = Some [2; 2; 2]%nat.
Proof.
  destruct (planes one_image 0 1 (PyBool true) (mk_St [array_2x2x3] [])) as [e|[[out self'] s']] eqn:E.
  - vm_compute in E. discriminate E.
  - exists out, self', s'. split; [reflexivity|].
    destruct (planes_selects_planes one_image 0 1 (PyBool true) (mk_St [array_2x2x3] []) out self' s' eq_refl E) as (d & Ed & _ & _ & _ & Ho & _).
    vm_compute in Ed. injection Ed; intros; subst. exact Ho.
Defined.

Lemma planes_refuses_exactly_witness :
  planes one_image 1 3 (PyBool true) (mk_St [array_2x2x3] []) = inl Exception_ /\
  exists r, planes one_image 1 3 (PyBool false) (mk_St [array_2x2x3] []) = inr r.
Proof.
  destruct (get_dims one_image (mk_St [array_2x2x3] [])) as [e|[[d self1] s1]] eqn:E;
    [vm_compute in E; discriminate E|].
  pose proof (fun b t i => planes_refuses_exactly one_image b t i _ _ _ _ E) as H.
  vm_compute in E. injection E; intros; subst. split.
  - exact (proj2 (proj2 (H 1%Z 3%Z (PyBool true))) (le_n 3) eq_refl).
  - exact (proj2 (proj2 (H 1%Z 3%Z (PyBool false))) (le_n 3) eq_refl).
Defined.

Lemma exportAsPngs_refuses_rank_and_tuple_keys_witness :
  @exportAsPngs unit unit unit (fun _ => tt) (fun _ _ => inr tt) (fun _ _ => ret tt)
    (fun _ _ => inr tt) (fun _ _ => ret tt) one_image "out" "export" false true
    (mk_St [array_4x4] []) = inl TypeError.
Proof.
  destruct (get_dims one_image (mk_St [array_4x4] [])) as [e|[[d self1] s1]] eqn:E;
    [vm_compute in E; discriminate E|].
  pose proof (exportAsPngs_refuses_rank_and_tuple_keys unit unit unit (fun _ => tt)
    (fun _ _ => inr tt) (fun _ _ => ret tt) (fun _ _ => inr tt) (fun _ _ => ret tt)
    one_image "out" "export" false true _ _ _ _ E) as [_ H].
  vm_compute in E. injection E; intros; subst.
  exact (H eq_refl [0%Z] 0%nat [] array_4x4 eq_refl eq_refl).
Defined.

Lemma png_names_distinct_for_distinct_keys_witness :
  toFilenameAndPngBuf unit (fun _ => tt) "export" (PyInt 7, array_4x4) = inr ("export00007.png"%string, tt) /\
  7%Z = 7%Z.
Proof.
  split; [reflexivity|].
  exact (png_names_distinct_for_distinct_keys unit (fun _ => tt) "export" 7 7 array_4x4 array_5x5
           "export00007.png" "export00007.png" tt tt eq_refl eq_refl eq_refl).
Defined.

Lemma png_names_sort_like_keys_witness :
  String.compare "export00007.png" "export00042.png" = Lt /\
  String.length "export00007.png" = (String.length "export" + 9)%nat.
Proof.
  apply (png_names_sort_like_keys unit (fun _ => tt) "export" 7 42 array_4x4 array_5x5
           "export00007.png" "export00042.png" tt tt); [lia|lia|reflexivity|reflexivity].
Defined.
